(** * r.fire.spread: scheduling and orchestration of a staged fire-spread run

    A shallow embedding of [r.fire.spread.py] (a Python 2 GRASS script that
    wraps [r.ros] and [r.spread]) and the properties of its time
    discretisation, parameter lookup, output naming and sequential driver.

    Python integers are unbounded, so times are [Z]. Counters that the code
    starts at [0] and only increments are [nat]. Exceptions and
    [gcore.fatal] are values of [exn] carried by the [result] type. Code
    that starts GRASS modules threads the log of started modules.

    The first part is the embedding, function by function; the second part
    holds the properties. *)

From Stdlib Require Import String Ascii.
From Stdlib Require Import ZArith List Bool Lia Sorted Arith DecimalString.
From Stdlib Require DecimalPos DecimalFacts.
Import ListNotations.

Local Open Scope Z_scope.

(** ** The Python runtime the script relies on *)

(** What [gcore.fatal] reports before it ends the process. *)
Inductive fatal_message : Type :=
| LenghtsDoesNotMatch (t : nat) (i : list string)
| RRosFailed
| RSpreadFailed
| GRemoveFailed
| RNullFailed
| RColorsFailed.

Inductive exn : Type :=
| IndexError
| UnboundLocalError
| ValueError
| Fatal (msg : fatal_message).

Inductive result (A : Type) : Type :=
| Ok (a : A)
| Raise (e : exn).

Arguments Ok {A} a.
Arguments Raise {A} e.

Definition bind {A B : Type} (r : result A) (k : A -> result B) : result B :=
  match r with
  | Ok a => k a
  | Raise e => Raise e
  end.

Declare Scope py_scope.
Delimit Scope py_scope with py.
Notation "x <- r ;; k" := (bind r (fun x => k))
  (at level 61, r at next level, right associativity) : py_scope.
Local Open Scope py_scope.

(** [l[i]] for a counter [i >= 0]: the item, or [IndexError]. *)
Definition item {A : Type} (l : list A) (i : nat) : result A :=
  match nth_error l i with
  | Some x => Ok x
  | None => Raise IndexError
  end.

(** [l[i]] for any integer: a negative [i] counts from the end. *)
Definition getitem {A : Type} (l : list A) (i : Z) : result A :=
  let n := Z.of_nat (length l) in
  let j := if i <? 0 then i + n else i in
  if (j <? 0) || (n <=? j) then Raise IndexError else item l (Z.to_nat j).

(** A [for] loop over a list whose body may raise. *)
Fixpoint for_each {A S : Type} (body : A -> S -> result S) (l : list A) (s : S)
  : result S :=
  match l with
  | [] => Ok s
  | x :: l' => s' <- body x s ;; for_each body l' s'
  end.

(** [range(start, stop, step)] of Python 2: a list, [ValueError] on a zero
    step. *)
Definition range_length (start stop step : Z) : nat :=
  if 0 <? step then Z.to_nat ((stop - start + step - 1) / step)
  else Z.to_nat ((start - stop - step - 1) / (- step)).

Definition range (start stop step : Z) : result (list Z) :=
  if step =? 0 then Raise ValueError
  else Ok (map (fun k => start + Z.of_nat k * step)
               (seq 0 (range_length start stop step))).

(** [set(l)] keeps one copy of each element; [sorted] orders them. *)
Definition set (l : list Z) : list Z := nodup Z.eq_dec l.

Fixpoint insert_sorted (x : Z) (l : list Z) : list Z :=
  match l with
  | [] => [x]
  | y :: l' => if x <=? y then x :: l else y :: insert_sorted x l'
  end.

Definition sorted (l : list Z) : list Z := fold_right insert_sorted [] l.

(** ** Interval Builder: [times_to_intervals] *)

(** An interval is the pair [(start, end)]. *)
Abbreviation interval := (Z * Z)%type (only parsing).

Definition times_to_intervals (simulation_times : list Z)
  : result (list interval) :=
  for_each
    (fun i intervals =>
       if Z.of_nat i <? Z.of_nat (length simulation_times) - 1 then
         a <- item simulation_times i ;;
         b <- item simulation_times (i + 1) ;;
         Ok (intervals ++ [(a, b)])
       else Ok intervals)
    (seq 0 (length simulation_times)) [].

(** ** Parameter Index Mapper: [data_indexes_for_intervals] *)

(** The loop state: the cursor [i], the local [current_data] ([None] until
    its first assignment) and the list built so far. *)
Fixpoint data_indexes_loop (intervals : list interval) (data_times : list Z)
  (i : nat) (current_data : option nat) (indexes : list nat)
  : result (list nat) :=
  match intervals with
  | [] => Ok indexes
  | iv :: rest =>
      t <- item data_times i ;;
      if t =? fst iv then
        data_indexes_loop rest data_times
          (if (i + 1 <? length data_times)%nat then (i + 1)%nat else i)
          (Some i) (indexes ++ [i])
      else
        match current_data with
        | None => Raise UnboundLocalError
        | Some c =>
            data_indexes_loop rest data_times i current_data (indexes ++ [c])
        end
  end.

Definition data_indexes_for_intervals (intervals : list interval)
  (data_times : list Z) : result (list nat) :=
  data_indexes_loop intervals data_times 0%nat None [].

(** [k] is the greatest index whose change time is at most [t]. *)
Definition greatest_index_le (data_times : list Z) (t : Z) (k : nat) : Prop :=
  (exists v, nth_error data_times k = Some v /\ v <= t) /\
  (forall j v, nth_error data_times j = Some v -> v <= t -> (j <= k)%nat).

Definition nondecreasing (indexes : list nat) : Prop :=
  forall a b ka kb,
    (a <= b)%nat ->
    nth_error indexes a = Some ka ->
    nth_error indexes b = Some kb ->
    (ka <= kb)%nat.

(** What the mapper is specified to return on [intervals] and
    [data_times]. *)
Definition emits_step_function_lookup (intervals : list interval)
  (data_times : list Z) : Prop :=
  exists indexes,
    data_indexes_for_intervals intervals data_times = Ok indexes /\
    length indexes = length intervals /\
    (forall i iv, nth_error intervals i = Some iv ->
       exists k, nth_error indexes i = Some k /\
                 greatest_index_le data_times (fst iv) k) /\
    nondecreasing indexes /\
    nth_error indexes 0 = Some 0%nat.

(** Every change time that some interval start reaches is itself an interval
    start: what the merge of the two time sources guarantees. *)
Definition change_times_on_grid (intervals : list interval)
  (data_times : list Z) : Prop :=
  forall t s,
    In t data_times -> In s (map fst intervals) -> t <= s ->
    In t (map fst intervals).

(** ** Checkpoint Merger: [determine_simulation_times] *)

(** One pass of the [if] inside the [while] body: the list, the cursor
    [current_change_time_index] and [next_change_time] after it. *)
Definition insert_change_time (time_step : Z) (change_times : list Z)
  (current_time : Z) (simulation_times : list Z)
  (current_change_time_index : nat) (next_change_time : Z)
  : result (list Z * nat * Z) :=
  if (next_change_time >? current_time)
     && (next_change_time <? current_time + time_step) then
    let simulation_times := simulation_times ++ [next_change_time] in
    let current_change_time_index :=
      if (current_change_time_index + 1 <? length change_times)%nat
      then (current_change_time_index + 1)%nat
      else current_change_time_index in
    if negb (length change_times <=? current_change_time_index + 1)%nat then
      t <- item change_times (current_change_time_index + 1) ;;
      Ok (simulation_times, current_change_time_index, t)
    else Ok (simulation_times, current_change_time_index, next_change_time)
  else Ok (simulation_times, current_change_time_index, next_change_time).

(** The [while] loop. It need not end (a step of [0] never advances), so the
    model counts iterations down from [fuel]; [None] means the fuel ran
    out. *)
Fixpoint determine_simulation_times_loop (fuel : nat) (time_step max_time : Z)
  (change_times : list Z) (current_time : Z) (simulation_times : list Z)
  (current_change_time_index : nat) (next_change_time : Z)
  : option (result (list Z)) :=
  match fuel with
  | O => None
  | S fuel' =>
      if current_time <? max_time then
        match insert_change_time time_step change_times current_time
                simulation_times current_change_time_index next_change_time with
        | Raise e => Some (Raise e)
        | Ok (simulation_times, current_change_time_index, next_change_time) =>
            let current_time := current_time + time_step in
            if current_time >? max_time then Some (Ok simulation_times)
            else
              determine_simulation_times_loop fuel' time_step max_time
                change_times current_time (simulation_times ++ [current_time])
                current_change_time_index next_change_time
        end
      else Some (Ok simulation_times)
  end.

Definition determine_simulation_times (fuel : nat) (time_step max_time : Z)
  (change_times : list Z) : option (result (list Z)) :=
  let current_time := 0 in
  let simulation_times := [current_time] in
  let current_change_time_index := 0%nat in
  match item change_times (current_change_time_index + 1) with
  | Raise e => Some (Raise e)
  | Ok next_change_time =>
      determine_simulation_times_loop fuel time_step max_time change_times
        current_time simulation_times current_change_time_index
        next_change_time
  end.

(** The merge [main] performs instead (lines 561-562):
    [sorted(set(range(0, max_time + 1, time_step) + change_times))]. *)
Definition simulation_times_of_main (time_step max_time : Z)
  (change_times : list Z) : result (list Z) :=
  export_times <- range 0 (max_time + 1) time_step ;;
  Ok (sorted (set (export_times ++ change_times))).

(** The non-procedural formulation of the Checkpoint Merger, in the words of
    the specification: the sorted deduplication of
    [{0, step, 2*step, ..., <= max_time}] united with [change_times],
    restricted to values [<= max_time]. *)
Definition periodic_checkpoints (step max_time : Z) : list Z :=
  map (fun k => Z.of_nat k * step) (seq 0 (Z.to_nat (max_time / step) + 1)).

Definition checkpoint_merger_spec (step max_time : Z) (change_times : list Z)
  : list Z :=
  sorted (set (filter (fun t => t <=? max_time)
                 (periodic_checkpoints step max_time ++ change_times))).

(** ** Output Namer: [number_lenght], [format_order],
       [output_names_for_intervals] *)

(** [str(number)] for an integer. *)
Definition str (number : Z) : string :=
  NilZero.string_of_int (Z.to_int number).

Fixpoint zeros (n : nat) : string :=
  match n with
  | O => EmptyString
  | S n' => String "0" (zeros n')
  end.

(** [s.zfill(width)]: zeros on the left up to [width], after a leading sign;
    never truncates. *)
Definition zfill (s : string) (width : Z) : string :=
  let fill := zeros (Z.to_nat (width - Z.of_nat (String.length s))) in
  match s with
  | String c rest =>
      if (Ascii.eqb c "+" || Ascii.eqb c "-")%bool
      then String c (fill ++ rest)
      else (fill ++ s)%string
  | EmptyString => fill
  end.

Definition format_order (number zeros : Z) : string :=
  zfill (str number) zeros.

Section OutputNamer.

(** [int(log(number, 10))] for a positive [number]. [math.log] is the C
    library's floating-point logarithm; its value is an input of the
    model. *)
Variable int_log10 : Z -> Z.

(** [log] raises [ValueError] (math domain error) on a number that is not
    positive. *)
Definition number_lenght (number : Z) : result Z :=
  if number <=? 0 then Raise ValueError else Ok (int_log10 number + 1).

Definition output_names_for_intervals (basename : string)
  (intervals : list interval) : result (list string) :=
  last_interval <- getitem intervals (-1) ;;
  let maximum := snd last_interval in
  lenght <- number_lenght maximum ;;
  for_each
    (fun iv names =>
       Ok (names ++ [(basename ++ "_" ++ format_order (snd iv) lenght)%string]))
    intervals [].

End OutputNamer.

(** A checkpoint sequence of the data model: non-negative times, each once,
    ascending. *)
Definition checkpoint_sequence (times : list Z) : Prop :=
  StronglySorted Z.lt times /\ Forall (fun t => 0 <= t) times.

(** ** Pipeline Orchestrator: [simulate_fire] *)

(** Keyword arguments of a module call: a [dict] with string keys. *)
Abbreviation dict := (list (string * string)) (only parsing).

Fixpoint dict_set (key value : string) (d : dict) : dict :=
  match d with
  | [] => [(key, value)]
  | (k, v) :: d' =>
      if String.eqb k key then (key, value) :: d'
      else (k, v) :: dict_set key value d'
  end.

(** The parameter bag as [main] fills it: [moistures_live] is always a list,
    the other vectors are [None] when their option is empty. *)
Record FireSimulationParams : Type := {
  model : string;
  moistures_live : list string;
  moistures_1h : option (list string);
  moistures_10h : option (list string);
  moistures_100h : option (list string);
  wind_directions : option (list string);
  wind_velocities : option (list string);
  slope : string;
  aspect : string;
  elevation : string;
  start_raster : string
}.

(** The GRASS modules the script starts, with the arguments it gives them. *)
Inductive command : Type :=
| r_ros (rros_params : dict)
| r_spread (max dir base start output : string) (init_time lag : Z)
| r_info (map : string)
| g_remove (rast : list string)
| r_null (map : string) (setnull : Z)
| r_colors (map rules stdin : string).

(** A started module and the status it returned. *)
Abbreviation event := (command * Z)%type (only parsing).

Definition ros_basename : string := "rfirespread_rros_out".
Definition ros_base : string := ros_basename ++ ".base".
Definition ros_max : string := ros_basename ++ ".max".
Definition ros_maxdir : string := ros_basename ++ ".maxdir".

(** The colour rules given to [r.colors] on its standard input, with the
    line breaks and indentation of the source literal. *)
Definition color_rules : string := "
                            0% 50:50:50
                            60% yellow
                            100% red
                            ".

Section Orchestrator.

(** The host system: the status a module returns, given the modules started
    before it. [grass.script.core] is not part of the repository; the script
    compares what [run_command] and [write_command] return with [0], and
    prints what [read_command] returns. *)
Variable run : list event -> command -> Z.

(** Code that starts modules: it extends the log and returns or raises. *)
Definition action (A : Type) : Type := list event -> result A * list event.

Definition pure {A : Type} (a : A) : action A := fun log => (Ok a, log).

Definition lift {A : Type} (r : result A) : action A := fun log => (r, log).

Definition bind_action {A B : Type} (m : action A) (k : A -> action B)
  : action B :=
  fun log =>
    match m log with
    | (Ok a, log') => k a log'
    | (Raise e, log') => (Raise e, log')
    end.

Notation "x <~ m ;; k" := (bind_action m (fun x => k))
  (at level 61, m at next level, right associativity).

(** [run_command] and [write_command] return the module's status;
    [read_command] returns its output, which the script only prints. *)
Definition run_command (c : command) : action Z :=
  fun log => let status := run log c in (Ok status, log ++ [(c, status)]).

Definition write_command (c : command) : action Z := run_command c.

Definition read_command (c : command) : action unit :=
  fun log => (Ok tt, log ++ [(c, run log c)]).

(** [gcore.fatal] reports the message and ends the process. *)
Definition fatal {A : Type} (msg : fatal_message) : action A :=
  fun log => (Raise (Fatal msg), log).

(** [if vector: rros_params[key] = vector[data_indexes[index]]]: [None] and
    the empty list are both false. *)
Definition set_if_present (key : string) (vector : option (list string))
  (data_indexes : list nat) (index : nat) (rros_params : dict) : result dict :=
  match vector with
  | Some (x :: xs) =>
      di <- item data_indexes index ;;
      v <- item (x :: xs) di ;;
      Ok (dict_set key v rros_params)
  | _ => Ok rros_params
  end.

(** Lines 461-471: the per-segment values written into [rros_params]. *)
Definition select_parameters (params : FireSimulationParams)
  (data_indexes : list nat) (index : nat) (rros_params : dict) : result dict :=
  di <- item data_indexes index ;;
  v <- item (moistures_live params) di ;;
  let rros_params := dict_set "moisture_live" v rros_params in
  rros_params <- set_if_present "moisture_1h" (moistures_1h params)
                   data_indexes index rros_params ;;
  rros_params <- set_if_present "moisture_10h" (moistures_10h params)
                   data_indexes index rros_params ;;
  rros_params <- set_if_present "moisture_100h" (moistures_100h params)
                   data_indexes index rros_params ;;
  rros_params <- set_if_present "direction" (wind_directions params)
                   data_indexes index rros_params ;;
  set_if_present "velocity" (wind_velocities params)
    data_indexes index rros_params.

(** The body of the [for] loop (lines 459-501) for the segment [index]. The
    state it hands to the next iteration is the [rros_params] dict and
    [start_raster]. The two [print]s of the interval write to standard
    output only and are left out. *)
Definition simulate_interval (params : FireSimulationParams)
  (data_indexes : list nat) (outputs : list string)
  (index : nat) (iv : interval) (rros_params : dict) (start_raster : string)
  : action (dict * string) :=
  rros_params <~
    lift (select_parameters params data_indexes index rros_params) ;;
  ret <~ run_command (r_ros rros_params) ;;
  if negb (ret =? 0) then fatal RRosFailed else
  output <~ lift (item outputs index) ;;
  ret <~ run_command (r_spread ros_max ros_maxdir ros_base start_raster output
                        (fst iv) (snd iv - fst iv)) ;;
  map <~ lift (item outputs index) ;;
  _ <~ read_command (r_info map) ;;
  if negb (ret =? 0) then fatal RSpreadFailed else
  ret <~ run_command (g_remove [ros_base; ros_max; ros_maxdir]) ;;
  if negb (ret =? 0) then fatal GRemoveFailed else
  map <~ lift (item outputs index) ;;
  ret <~ run_command (r_null map 0) ;;
  if negb (ret =? 0) then fatal RNullFailed else
  map <~ lift (item outputs index) ;;
  ret <~ write_command (r_colors map "-" color_rules) ;;
  if negb (ret =? 0) then fatal RColorsFailed else
  start_raster <~ lift (item outputs index) ;;
  pure (rros_params, start_raster).

Fixpoint simulate_fire_loop (params : FireSimulationParams)
  (data_indexes : list nat) (outputs : list string)
  (simulation_intervals : list interval) (index : nat)
  (rros_params : dict) (start_raster : string) : action (dict * string) :=
  match simulation_intervals with
  | [] => pure (rros_params, start_raster)
  | iv :: rest =>
      state <~ simulate_interval params data_indexes outputs index iv
                 rros_params start_raster ;;
      simulate_fire_loop params data_indexes outputs rest (S index)
        (fst state) (snd state)
  end.

Definition simulate_fire (params : FireSimulationParams)
  (simulation_intervals : list interval) (data_indexes : list nat)
  (outputs : list string) : action unit :=
  let start_raster := start_raster params in
  let rros_params :=
    [("model", model params); ("slope", slope params);
     ("aspect", aspect params); ("elevation", elevation params);
     ("output", ros_basename)]%string in
  _ <~ simulate_fire_loop params data_indexes outputs simulation_intervals
         0%nat rros_params start_raster ;;
  pure tt.

(** ** [main] *)

(** [s.split(sep)] for a one-character separator. *)
Fixpoint split (sep : ascii) (s : string) : list string :=
  match s with
  | EmptyString => [EmptyString]
  | String c s' =>
      if Ascii.eqb c sep then EmptyString :: split sep s'
      else match split sep s' with
           | [] => [String c EmptyString]
           | word :: words => String c word :: words
           end
  end.

(** What [gcore.parser()] hands to [main]: the option strings, with
    [times], [lag] and [time_step] already converted by [int] (lines
    548-550). *)
Record parsed_options : Type := {
  opt_model : string;
  opt_moisture_live : string;
  opt_moisture_1h : string;
  opt_moisture_10h : string;
  opt_moisture_100h : string;
  opt_direction : string;
  opt_speed : string;
  opt_slope : string;
  opt_aspect : string;
  opt_elevation : string;
  opt_start : string;
  opt_output : string;
  opt_times : list Z;
  opt_lag : Z;
  opt_time_step : Z
}.

(** [option.split(',') if option else None]. *)
Definition split_if_given (option_value : string) : option (list string) :=
  match option_value with
  | EmptyString => None
  | _ => Some (split "," option_value)
  end.

Definition sim_params_of (options : parsed_options) : FireSimulationParams :=
  {| model := opt_model options;
     moistures_live := split "," (opt_moisture_live options);
     moistures_1h := split_if_given (opt_moisture_1h options);
     moistures_10h := split_if_given (opt_moisture_10h options);
     moistures_100h := split_if_given (opt_moisture_100h options);
     wind_directions := split_if_given (opt_direction options);
     wind_velocities := split_if_given (opt_speed options);
     slope := opt_slope options;
     aspect := opt_aspect options;
     elevation := opt_elevation options;
     start_raster := opt_start options |}.

(** The vectors the length check of lines 553-558 goes through, in its
    order. *)
Definition checked_vectors (sim_params : FireSimulationParams)
  : list (option (list string)) :=
  [Some (moistures_live sim_params); moistures_1h sim_params;
   moistures_10h sim_params; moistures_100h sim_params;
   wind_directions sim_params; wind_velocities sim_params].

Definition check_lengths (number_of_changes : nat)
  (vectors : list (option (list string))) : result unit :=
  for_each
    (fun i _ =>
       match i with
       | Some v =>
           if negb (length v =? number_of_changes)%nat
           then Raise (Fatal (LenghtsDoesNotMatch number_of_changes v))
           else Ok tt
       | None => Ok tt
       end)
    vectors tt.

Variable int_log10 : Z -> Z.

(** Lines 561-571: the plan is built and handed to [simulate_fire]. *)
Definition plan_and_simulate (sim_params : FireSimulationParams)
  (basename : string) (change_times : list Z) (max_time time_step : Z)
  : action Z :=
  simulation_times <~
    lift (simulation_times_of_main time_step max_time change_times) ;;
  simulation_intervals <~ lift (times_to_intervals simulation_times) ;;
  data_indexes <~
    lift (data_indexes_for_intervals simulation_intervals change_times) ;;
  outputs <~
    lift (output_names_for_intervals int_log10 basename
            simulation_intervals) ;;
  _ <~ simulate_fire sim_params simulation_intervals data_indexes outputs ;;
  pure 0.

Definition main (options : parsed_options) : action Z :=
  let sim_params := sim_params_of options in
  let basename := opt_output options in
  let change_times := opt_times options in
  let max_time := opt_lag options in
  let time_step := opt_time_step options in
  let number_of_changes := length change_times in
  _ <~ lift (check_lengths number_of_changes (checked_vectors sim_params)) ;;
  plan_and_simulate sim_params basename change_times max_time time_step.

End Orchestrator.

(** ** Reading a log *)

Definition is_r_spread (c : command) : bool :=
  match c with
  | r_spread _ _ _ _ _ _ _ => true
  | _ => false
  end.

(** The [r.spread] calls of a log, in order. *)
Definition spread_events (log : list event) : list event :=
  filter (fun e => is_r_spread (fst e)) log.

(** The six modules of a segment that ran to its end: the five whose status
    is checked returned [0]; the status of the [r.info] query is not
    looked at. *)
Definition segment_events (rros_params : dict) (seed output : string)
  (iv : interval) (info_status : Z) : list event :=
  [(r_ros rros_params, 0);
   (r_spread ros_max ros_maxdir ros_base seed output (fst iv) (snd iv - fst iv),
    0);
   (r_info output, info_status);
   (g_remove [ros_base; ros_max; ros_maxdir], 0);
   (r_null output 0, 0);
   (r_colors output "-" color_rules, 0)].

(** The start artifact segment [k] is to be given: the supplied start
    locations for the first segment, the previous segment's output name
    after that. *)
Definition seed_of_segment (params : FireSimulationParams)
  (outputs : list string) (k : nat) : string :=
  match k with
  | O => start_raster params
  | S j => nth j outputs EmptyString
  end.

Definition is_r_info (c : command) : bool :=
  match c with
  | r_info _ => true
  | _ => false
  end.

(** Fail-fast, read off a log: a checked module that returned a non-zero
    status ends the log, except that a failed [r.spread] is followed by
    exactly one [r.info] query, which ends the log. *)
Fixpoint fail_fast (log : list event) : bool :=
  match log with
  | [] => true
  | (c, st) :: rest =>
      if (is_r_info c || (st =? 0))%bool then fail_fast rest
      else
        match rest with
        | [] => negb (is_r_spread c)
        | [(c', _)] => (is_r_spread c && is_r_info c')%bool
        | _ :: _ :: _ => false
        end
  end.

(** No rollback: the only maps ever removed are the three transient
    rate-of-spread maps. *)
Definition removes_only_transient (e : event) : Prop :=
  forall rast, fst e = g_remove rast -> rast = [ros_base; ros_max; ros_maxdir].

(** ** Invariants of the loops *)

(** The remaining starts still cover the change times they reach: a change
    time that some remaining start reaches is a remaining start, or lies at
    or below all of them. *)
Definition on_grid_from (data_times : list Z) (rest : list interval) : Prop :=
  forall t s,
    In t data_times -> In s (map fst rest) -> t <= s ->
    In t (map fst rest) \/ (forall s', In s' (map fst rest) -> t <= s').

(** What the cursor [i] and [current_data] of the mapper satisfy before the
    next start: the change time under the cursor is that start, or the held
    index [c] is in force there and the cursor is just past it or stuck on
    the last change time. *)
Definition cursor_invariant (data_times : list Z) (rest : list interval)
  (i : nat) (current_data : option nat) : Prop :=
  match rest with
  | [] => True
  | iv :: _ =>
      exists vi, nth_error data_times i = Some vi /\
        (vi = fst iv \/
         exists c vc,
           current_data = Some c /\ nth_error data_times c = Some vc /\
           vc <= fst iv /\
           ((i = (c + 1)%nat /\ fst iv < vi) \/
            (i = c /\ (c + 1)%nat = length data_times)))
  end.

(** What a segment that raised has added to the log: nothing, the [r.ros]
    call alone, or the [r.ros] call that returned [0], this segment's
    [r.spread] call and no other [r.spread]. *)
Definition aborted_part (outputs : list string) (seed : string) (idx : nat)
  (iv : interval) (part : list event) : Prop :=
  part = [] \/
  (exists p st, part = [(r_ros p, st)]) \/
  (exists p o st tail,
     nth_error outputs idx = Some o /\
     part = (r_ros p, 0)
            :: (r_spread ros_max ros_maxdir ros_base seed o
                  (fst iv) (snd iv - fst iv), st)
            :: tail /\
     spread_events tail = []).

(** The seed in force at the [k]-th segment of a loop that starts at
    segment [idx] with [seed]. *)
Definition seed_at (outputs : list string) (seed : string) (idx k : nat)
  : string :=
  match k with
  | O => seed
  | S j => nth (idx + j) outputs EmptyString
  end.

(** ** Worlds and inputs used as examples *)

(** A world in which every module succeeds, one in which [r.spread] fails,
    and a parameter bag with live moisture only. *)
Definition always_succeeds : list event -> command -> Z := fun _ _ => 0.

Definition spread_fails : list event -> command -> Z :=
  fun _ c => if is_r_spread c then 1 else 0.

Definition example_params : FireSimulationParams :=
  {| model := "fuel";
     moistures_live := ["live_a"; "live_b"]%string;
     moistures_1h := None;
     moistures_10h := None;
     moistures_100h := None;
     wind_directions := None;
     wind_velocities := None;
     slope := "slope";
     aspect := "aspect";
     elevation := "elevation";
     start_raster := "start" |}.

(** Two change times, one live-moisture map and no step: the run stops at
    the length check. *)
Definition mismatched_options : parsed_options :=
  {| opt_model := "fuel";
     opt_moisture_live := "live_a";
     opt_moisture_1h := EmptyString;
     opt_moisture_10h := EmptyString;
     opt_moisture_100h := EmptyString;
     opt_direction := EmptyString;
     opt_speed := EmptyString;
     opt_slope := EmptyString;
     opt_aspect := EmptyString;
     opt_elevation := EmptyString;
     opt_start := "start";
     opt_output := "fire";
     opt_times := [0; 5];
     opt_lag := 9;
     opt_time_step := 0 |}.

(** The end-to-end example: a horizon of [9], a step of [2] and change times
    [0, 3, 5]. *)
Definition example_options : parsed_options :=
  {| opt_model := "fuel";
     opt_moisture_live := "live_a,live_b,live_c";
     opt_moisture_1h := EmptyString;
     opt_moisture_10h := EmptyString;
     opt_moisture_100h := EmptyString;
     opt_direction := "dir_a,dir_b,dir_c";
     opt_speed := EmptyString;
     opt_slope := "slope";
     opt_aspect := "aspect";
     opt_elevation := "elevation";
     opt_start := "start";
     opt_output := "fire";
     opt_times := [0; 3; 5];
     opt_lag := 9;
     opt_time_step := 2 |}.

(** * The rest of the script *)

(** ** [data_for_intervals] *)

(** The sibling of [data_indexes_for_intervals] that emits the change time
    in force instead of its index (lines 304-328). [current_data] holds a
    time here. *)
Fixpoint data_for_intervals_loop (intervals : list interval)
  (data_times : list Z) (i : nat) (current_data : option Z)
  (interval_data : list Z) : result (list Z) :=
  match intervals with
  | [] => Ok interval_data
  | iv :: rest =>
      t <- item data_times i ;;
      if t =? fst iv then
        v <- item data_times i ;;
        let interval_data := interval_data ++ [v] in
        c <- item data_times i ;;
        data_for_intervals_loop rest data_times
          (if (i + 1 <? length data_times)%nat then (i + 1)%nat else i)
          (Some c) interval_data
      else
        match current_data with
        | None => Raise UnboundLocalError
        | Some c =>
            data_for_intervals_loop rest data_times i current_data
              (interval_data ++ [c])
        end
  end.

Definition data_for_intervals (intervals : list interval)
  (data_times : list Z) : result (list Z) :=
  data_for_intervals_loop intervals data_times 0%nat None [].

(** ** What [determine_simulation_times] keeps *)

(** What holds of the list whenever control is at the head of the [while]
    loop with [current_time = c]: ascending, from [0], up to [c], which is a
    multiple of the step; every multiple up to [c] is there, and nothing but
    multiples and change times. *)
Definition merger_invariant (time_step max_time : Z) (change_times : list Z)
  (c : Z) (simulation_times : list Z) : Prop :=
  StronglySorted Z.lt simulation_times /\
  nth_error simulation_times 0 = Some 0 /\
  (forall t, In t simulation_times -> 0 <= t <= c) /\
  c <= max_time /\
  (exists m, 0 <= m /\ c = m * time_step) /\
  (forall k, 0 <= k -> k * time_step <= c -> In (k * time_step) simulation_times) /\
  (forall t, In t simulation_times ->
             (exists k, 0 <= k /\ t = k * time_step) \/ In t change_times).

(** What holds of the list [determine_simulation_times] returns. *)
Definition merger_result (time_step max_time : Z) (change_times : list Z)
  (simulation_times : list Z) : Prop :=
  StronglySorted Z.lt simulation_times /\
  nth_error simulation_times 0 = Some 0 /\
  (forall k, 0 <= k -> k * time_step <= max_time ->
             In (k * time_step) simulation_times) /\
  (forall t, In t simulation_times ->
             ((exists k, 0 <= k /\ t = k * time_step) \/ In t change_times) /\
             0 <= t < max_time + time_step).

(** ** Reading decimal strings *)

Definition is_digit (c : ascii) : bool :=
  ((48 <=? N_of_ascii c) && (N_of_ascii c <=? 57))%N.

Fixpoint all_digits (s : string) : bool :=
  match s with
  | EmptyString => true
  | String c s' => is_digit c && all_digits s'
  end.

(** The number a string of decimal digits denotes, read from the left. *)
Fixpoint int_of_digits_from (acc : Z) (s : string) : Z :=
  match s with
  | EmptyString => acc
  | String c s' =>
      int_of_digits_from (10 * acc + (Z.of_N (N_of_ascii c) - 48)) s'
  end.

Definition int_of_digits (s : string) : Z := int_of_digits_from 0 s.

(** The length of a string as an integer, as [len] gives it. *)
Definition len (s : string) : Z := Z.of_nat (String.length s).

(** ** Reading the keyword arguments of [r.ros] *)

(** [d.get(key)]. *)
Fixpoint dict_get (key : string) (d : dict) : option string :=
  match d with
  | [] => None
  | (k, v) :: d' => if String.eqb k key then Some v else dict_get key d'
  end.

(** The optional per-change-time vectors with the [r.ros] option each one
    feeds (lines 462-471). *)
Definition optional_vectors (params : FireSimulationParams)
  : list (string * option (list string)) :=
  [("moisture_1h", moistures_1h params);
   ("moisture_10h", moistures_10h params);
   ("moisture_100h", moistures_100h params);
   ("direction", wind_directions params);
   ("velocity", wind_velocities params)]%string.

(** A vector counts as given when it is a non-empty list. *)
Definition given (vector : option (list string)) : bool :=
  match vector with
  | Some (_ :: _) => true
  | _ => false
  end.

Definition vector_item (vector : option (list string)) (di : nat)
  : option string :=
  match vector with
  | Some v => nth_error v di
  | None => None
  end.

(** The dict [p] carries the values in force at index [di]: the live
    moisture and every given vector, each read at [di]. *)
Definition selected_at (params : FireSimulationParams) (di : nat) (p : dict)
  : Prop :=
  dict_get "moisture_live" p = nth_error (moistures_live params) di /\
  forall key vector,
    In (key, vector) (optional_vectors params) ->
    given vector = true ->
    dict_get key p = vector_item vector di.

(** Index [di] is a position of the live moisture vector and of every given
    vector. *)
Definition vectors_cover (params : FireSimulationParams) (di : nat) : Prop :=
  nth_error (moistures_live params) di <> None /\
  forall key vector,
    In (key, vector) (optional_vectors params) ->
    given vector = true ->
    vector_item vector di <> None.

(** What no iteration changes in the [r.ros] dict: the five entries it is
    created with, and the absence of the key of a vector that is not
    given. *)
Definition fixed_parameters (params : FireSimulationParams) (p : dict)
  : Prop :=
  dict_get "model" p = Some (model params) /\
  dict_get "slope" p = Some (slope params) /\
  dict_get "aspect" p = Some (aspect params) /\
  dict_get "elevation" p = Some (elevation params) /\
  dict_get "output" p = Some ros_basename /\
  forall key vector,
    In (key, vector) (optional_vectors params) ->
    given vector = false ->
    dict_get key p = None.

(** The plan covers the intervals: every segment has an output name and an
    index that is a position of every vector in use. *)
Definition plan_covers (params : FireSimulationParams)
  (simulation_intervals : list interval) (data_indexes : list nat)
  (outputs : list string) : Prop :=
  forall j, (j < length simulation_intervals)%nat ->
    nth_error outputs j <> None /\
    exists di, nth_error data_indexes j = Some di /\ vectors_cover params di.

(** ** Reaching a segment *)



(** ** Splitting the option strings *)

(** [sep.join(l)]. *)
Fixpoint join (sep : string) (l : list string) : string :=
  match l with
  | [] => EmptyString
  | [x] => x
  | x :: rest => x ++ sep ++ join sep rest
  end.

(** [s.count(c)] for a character [c]. *)
Fixpoint count (c : ascii) (s : string) : nat :=
  match s with
  | EmptyString => 0
  | String c' s' => (if Ascii.eqb c' c then 1 else 0) + count c s'
  end.

(** ** Further inputs used as examples *)

(** One change time and a horizon shorter than the step. *)
Definition short_horizon_options : parsed_options :=
  {| opt_model := "fuel";
     opt_moisture_live := "live_a";
     opt_moisture_1h := EmptyString;
     opt_moisture_10h := EmptyString;
     opt_moisture_100h := EmptyString;
     opt_direction := EmptyString;
     opt_speed := EmptyString;
     opt_slope := "slope";
     opt_aspect := "aspect";
     opt_elevation := "elevation";
     opt_start := "start";
     opt_output := "fire";
     opt_times := [0];
     opt_lag := 5;
     opt_time_step := 10 |}.

(** Matching lengths and a step of zero. *)
Definition zero_step_options : parsed_options :=
  {| opt_model := "fuel";
     opt_moisture_live := "live_a,live_b";
     opt_moisture_1h := EmptyString;
     opt_moisture_10h := EmptyString;
     opt_moisture_100h := EmptyString;
     opt_direction := EmptyString;
     opt_speed := EmptyString;
     opt_slope := "slope";
     opt_aspect := "aspect";
     opt_elevation := "elevation";
     opt_start := "start";
     opt_output := "fire";
     opt_times := [0; 5];
     opt_lag := 9;
     opt_time_step := 0 |}.
(** * Properties *)

(** ** Interval Builder: adjacent pairs *)

Lemma item_nth_error {A : Type} (l : list A) (i : nat) (x : A) :
  nth_error l i = Some x -> item l i = Ok x.
Proof. unfold item. intros ->. reflexivity. Qed.

Lemma skipn_cons_nth_error {A : Type} (l : list A) (k : nat) (x : A) :
  nth_error l k = Some x -> skipn k l = x :: skipn (S k) l.
Proof.
  revert k. induction l as [|y l IH]; intros [|k] H; simpl in *;
    try discriminate.
  - congruence.
  - now apply IH.
Qed.

Lemma combine_skipn_step {A : Type} (l : list A) (k : nat) (a b : A) :
  nth_error l k = Some a ->
  nth_error l (S k) = Some b ->
  combine (skipn k l) (skipn (S k) l)
  = (a, b) :: combine (skipn (S k) l) (skipn (S (S k)) l).
Proof.
  intros Ha Hb.
  rewrite (skipn_cons_nth_error _ _ _ Ha).
  pose proof (skipn_cons_nth_error _ _ _ Hb) as E. revert E.
  destruct (skipn (S k) l) as [|y ys]; intros E; inversion E; subst.
  reflexivity.
Qed.

Lemma times_to_intervals_from (l : list Z) :
  forall m k acc,
    (k + m = length l)%nat ->
    for_each
      (fun i intervals =>
         if Z.of_nat i <? Z.of_nat (length l) - 1 then
           a <- item l i ;;
           b <- item l (i + 1) ;;
           Ok (intervals ++ [(a, b)])
         else Ok intervals)
      (seq k m) acc
    = Ok (acc ++ combine (skipn k l) (skipn (S k) l)).
Proof.
  induction m as [|m IH]; intros k acc Hk; cbn [for_each seq bind].
  - rewrite skipn_all2 by lia. simpl. now rewrite app_nil_r.
  - destruct (Z.ltb_spec (Z.of_nat k) (Z.of_nat (length l) - 1)) as [Hlt|Hge].
    + destruct (nth_error l k) as [a|] eqn:Ha.
      2:{ apply nth_error_None in Ha. lia. }
      destruct (nth_error l (S k)) as [b|] eqn:Hb.
      2:{ apply nth_error_None in Hb. lia. }
      rewrite (item_nth_error _ _ _ Ha). cbn [bind].
      replace (k + 1)%nat with (S k) by lia.
      rewrite (item_nth_error _ _ _ Hb). cbn [bind].
      rewrite IH by lia.
      rewrite (combine_skipn_step _ _ _ _ Ha Hb).
      now rewrite <- app_assoc.
    + cbn [bind]. rewrite IH by lia.
      assert (m = 0%nat) by lia. subst m.
      rewrite (skipn_all2 (n := S k)) by lia.
      rewrite (skipn_all2 (n := S (S k))) by lia.
      simpl. destruct (skipn k l); reflexivity.
Qed.

Lemma times_to_intervals_combine (l : list Z) :
  times_to_intervals l = Ok (combine l (tl l)).
Proof.
  unfold times_to_intervals.
  rewrite (times_to_intervals_from l (length l) 0 []) by lia.
  simpl. destruct l; reflexivity.
Qed.

Lemma nth_error_combine_tl (l : list Z) :
  forall i, (i + 1 < length l)%nat ->
    nth_error (combine l (tl l)) i = Some (nth i l 0, nth (i + 1) l 0).
Proof.
  induction l as [|x l IH]; intros i Hi; simpl in *; [lia|].
  destruct l as [|y l]; simpl in *; [lia|].
  destruct i as [|i]; simpl; [reflexivity|].
  rewrite <- IH by lia. reflexivity.
Qed.

Lemma length_combine_tl (l : list Z) :
  length (combine l (tl l)) = (length l - 1)%nat.
Proof.
  rewrite length_combine. destruct l as [|x l]; [reflexivity|].
  cbn [tl length]. lia.
Qed.

Lemma combine_tl_contiguous (l : list Z) :
  forall i a b,
    nth_error (combine l (tl l)) i = Some a ->
    nth_error (combine l (tl l)) (i + 1) = Some b ->
    snd a = fst b.
Proof.
  intros i a b Ha Hb.
  pose proof (length_combine_tl l) as Hlen.
  assert (Hi : (i + 1 < length (combine l (tl l)))%nat).
  { apply nth_error_Some. congruence. }
  rewrite nth_error_combine_tl in Ha by lia.
  rewrite nth_error_combine_tl in Hb by lia.
  inversion Ha. inversion Hb. reflexivity.
Qed.

(** C6. For a checkpoint sequence of length [n], [times_to_intervals]
    returns (without raising) exactly the [n - 1] adjacent pairs
    [(seq[i], seq[i+1])], [i = 0 .. n-2] (the empty list when [n < 2]), and
    each interval ends where the next one starts. *)
Theorem times_to_intervals_adjacent_pairs :
  forall simulation_times : list Z,
  exists intervals,
    times_to_intervals simulation_times = Ok intervals /\
    length intervals = (length simulation_times - 1)%nat /\
    (forall i, (i + 1 < length simulation_times)%nat ->
       nth_error intervals i
       = Some (nth i simulation_times 0, nth (i + 1) simulation_times 0)) /\
    (forall i a b,
       nth_error intervals i = Some a ->
       nth_error intervals (i + 1) = Some b ->
       snd a = fst b).
Proof.
  intros l. exists (combine l (tl l)).
  split; [apply times_to_intervals_combine|].
  split; [apply length_combine_tl|].
  split; [apply nth_error_combine_tl|apply combine_tl_contiguous].
Qed.

Lemma StronglySorted_nth_lt (l : list Z) :
  StronglySorted Z.lt l ->
  forall a b va vb,
    (a < b)%nat -> nth_error l a = Some va -> nth_error l b = Some vb ->
    va < vb.
Proof.
  induction 1 as [|x l Hs IH Hx]; intros a b va vb Hab Ha Hb.
  - destruct a; discriminate.
  - destruct b as [|b]; [lia|]. simpl in Hb.
    destruct a as [|a]; simpl in Ha.
    + inversion Ha; subst x.
      rewrite Forall_forall in Hx. apply Hx. eapply nth_error_In; eauto.
    + apply (IH a b va vb); [lia|assumption|assumption].
Qed.

Section Mapper.

Variable data_times : list Z.

(** Once [current_data] is assigned and the cursor is in range, the loop
    runs to its end. *)
Lemma data_indexes_loop_assigned :
  forall intervals i c indexes,
    (i < length data_times)%nat ->
    exists out,
      data_indexes_loop intervals data_times i (Some c) indexes = Ok out.
Proof.
  induction intervals as [|iv rest IH]; intros i c indexes Hi; simpl.
  - eauto.
  - destruct (nth_error data_times i) as [t|] eqn:Ht.
    2:{ apply nth_error_None in Ht. lia. }
    rewrite (item_nth_error _ _ _ Ht). cbn [bind].
    destruct (t =? fst iv).
    + apply IH. destruct (Nat.ltb_spec (i + 1) (length data_times)); lia.
    + now apply IH.
Qed.

Hypothesis data_times_increasing : StronglySorted Z.lt data_times.

Lemma on_grid_from_tl (iv : interval) (rest : list interval) :
  StronglySorted Z.le (map fst (iv :: rest)) ->
  on_grid_from data_times (iv :: rest) -> on_grid_from data_times rest.
Proof.
  intros Hs G t s Ht Hin Hle. inversion Hs as [|? ? Hs' Hlt]; subst.
  rewrite Forall_forall in Hlt.
  destruct (G t s Ht (or_intror Hin) Hle) as [[Heq|Hin']|Hbelow].
  - right. intros s' Hs''. rewrite <- Heq. now apply Hlt.
  - now left.
  - right. intros s' Hs''. apply Hbelow. now right.
Qed.

(** A change time above the current start is not below the next one. *)
Lemma next_start_reached (iv iv' : interval) (rest : list interval) (w : Z) :
  StronglySorted Z.le (map fst (iv :: iv' :: rest)) ->
  on_grid_from data_times (iv :: iv' :: rest) ->
  In w data_times -> fst iv < w -> fst iv' <= w.
Proof.
  intros Hs G Hw Hlt.
  destruct (Z.le_gt_cases (fst iv') w) as [|Hgt]; [assumption|exfalso].
  inversion Hs as [|? ? Hs' Hall]; subst.
  inversion Hs' as [|? ? Hs'' Hall']; subst.
  rewrite Forall_forall in Hall, Hall'.
  destruct (G w (fst iv')) as [Hin|Hbelow]; simpl; auto; try lia.
  - destruct Hin as [E|[E|Hin]]; try lia.
    specialize (Hall' _ Hin). lia.
  - specialize (Hbelow (fst iv) (or_introl eq_refl)). lia.
Qed.

Lemma data_indexes_loop_lookup :
  forall rest i current_data indexes,
    StronglySorted Z.le (map fst rest) ->
    on_grid_from data_times rest ->
    cursor_invariant data_times rest i current_data ->
    exists out,
      data_indexes_loop rest data_times i current_data indexes
      = Ok (indexes ++ out) /\
      Forall2 (fun iv k => greatest_index_le data_times (fst iv) k) rest out.
Proof.
  induction rest as [|iv rest IH]; intros i cd indexes Hs G Inv.
  - exists []. simpl. rewrite app_nil_r. auto.
  - destruct Inv as (vi & Hvi & Hcase). cbn [data_indexes_loop].
    rewrite (item_nth_error _ _ _ Hvi). cbn [bind].
    assert (Hs' : StronglySorted Z.le (map fst rest))
      by (inversion Hs; assumption).
    pose proof (on_grid_from_tl _ _ Hs G) as G'.
    assert (Hilen : (i < length data_times)%nat)
      by (apply nth_error_Some; congruence).
    assert (Hnext : forall iv' rest', rest = iv' :: rest' ->
                      fst iv <= fst iv').
    { intros iv' rest' ->. inversion Hs as [|? ? ? Hall]; subst.
      rewrite Forall_forall in Hall. apply Hall. now left. }
    destruct (Z.eqb_spec vi (fst iv)) as [Heq|Hne].
    + (* the change time under the cursor is this start *)
      assert (Hk : greatest_index_le data_times (fst iv) i).
      { split; [exists vi; split; [assumption|lia]|].
        intros j v Hj Hv. destruct (Nat.le_gt_cases j i) as [|Hji]; auto.
        pose proof (StronglySorted_nth_lt _ data_times_increasing
                      _ _ _ _ Hji Hvi Hj). lia. }
      destruct (IH (if (i + 1 <? length data_times)%nat
                    then (i + 1)%nat else i)
                  (Some i) (indexes ++ [i]) Hs' G') as (out & Hrun & Hall).
      { destruct rest as [|iv' rest']; [exact I|]. simpl.
        pose proof (Hnext iv' rest' eq_refl) as Hle.
        destruct (Nat.ltb_spec (i + 1) (length data_times)) as [Hin|Hout].
        - destruct (nth_error data_times (i + 1)) as [w|] eqn:Hw.
          2:{ apply nth_error_None in Hw. lia. }
          exists w. split; [reflexivity|].
          assert (vi < w)
            by (eapply (StronglySorted_nth_lt _ data_times_increasing i (i + 1));
                eauto; lia).
          assert (fst iv' <= w).
          { eapply next_start_reached; eauto.
            - eapply nth_error_In; eauto.
            - lia. }
          destruct (Z.eq_dec w (fst iv')) as [|Hd]; [now left|right].
          exists i, vi. split; [reflexivity|]. split; [assumption|].
          split; [lia|]. left. split; lia.
        - exists vi. split; [assumption|].
          destruct (Z.eq_dec vi (fst iv')) as [|Hd]; [now left|right].
          exists i, vi. split; [reflexivity|]. split; [assumption|].
          split; [lia|]. right. split; lia. }
      exists (i :: out). split.
      * rewrite Hrun. now rewrite <- app_assoc.
      * now constructor.
    + (* no change at this start: the held index is emitted *)
      destruct Hcase as [|(c & vc & Hcd & Hvc & Hlt & Hpos)]; [contradiction|].
      subst cd.
      assert (Hk : greatest_index_le data_times (fst iv) c).
      { split; [exists vc; split; [assumption|lia]|].
        intros j v Hj Hv. destruct (Nat.le_gt_cases j c) as [|Hjc]; auto.
        destruct Hpos as [[Hi Hgt]|[Hi Hlast]].
        - destruct (Nat.eq_dec j i) as [->|Hji].
          + rewrite Hvi in Hj. inversion Hj. lia.
          + assert (Hij : (i < j)%nat) by lia.
            pose proof (StronglySorted_nth_lt _ data_times_increasing
                          _ _ _ _ Hij Hvi Hj). lia.
        - assert (j < length data_times)%nat
            by (apply nth_error_Some; congruence). lia. }
      destruct (IH i (Some c) (indexes ++ [c]) Hs' G') as (out & Hrun & Hall).
      { destruct rest as [|iv' rest']; [exact I|]. simpl.
        pose proof (Hnext iv' rest' eq_refl) as Hle.
        exists vi. split; [assumption|].
        destruct (Z.eq_dec vi (fst iv')) as [|Hd]; [now left|right].
        exists c, vc. split; [reflexivity|]. split; [assumption|].
        split; [lia|].
        destruct Hpos as [[Hi Hgt]|[Hi Hlast]].
        - assert (fst iv' <= vi).
          { eapply next_start_reached; eauto. eapply nth_error_In; eauto. }
          left. split; lia.
        - right. split; lia. }
      exists (c :: out). split.
      * rewrite Hrun. now rewrite <- app_assoc.
      * now constructor.
Qed.

End Mapper.

Lemma Forall2_nth_error_l {A B : Type} (R : A -> B -> Prop)
  (l1 : list A) (l2 : list B) :
  Forall2 R l1 l2 ->
  forall i a, nth_error l1 i = Some a ->
    exists b, nth_error l2 i = Some b /\ R a b.
Proof.
  induction 1 as [|x y l1 l2 Hxy Hall IH]; intros i a Hi.
  - destruct i; discriminate.
  - destruct i as [|i]; simpl in *.
    + inversion Hi; subst. eauto.
    + now apply IH.
Qed.

Lemma StronglySorted_nth_le (l : list Z) :
  StronglySorted Z.le l ->
  forall a b va vb,
    (a <= b)%nat -> nth_error l a = Some va -> nth_error l b = Some vb ->
    va <= vb.
Proof.
  induction 1 as [|x l Hs IH Hx]; intros a b va vb Hab Ha Hb.
  - destruct a; discriminate.
  - destruct a as [|a]; simpl in Ha.
    + inversion Ha; subst x. destruct b as [|b]; simpl in Hb.
      * inversion Hb. lia.
      * rewrite Forall_forall in Hx. apply Hx. eapply nth_error_In; eauto.
    + destruct b as [|b]; [lia|]. simpl in Hb.
      apply (IH a b va vb); [lia|assumption|assumption].
Qed.

(** From the pointwise lookup to the whole statement: the indexes are then
    non-decreasing and begin with [0]. *)
Lemma step_function_lookup_of_greatest (intervals : list interval)
  (data_times : list Z) (out : list nat) :
  intervals <> [] ->
  StronglySorted Z.le (map fst intervals) ->
  StronglySorted Z.lt data_times ->
  nth_error data_times 0 = nth_error (map fst intervals) 0 ->
  data_indexes_for_intervals intervals data_times = Ok out ->
  Forall2 (fun iv k => greatest_index_le data_times (fst iv) k) intervals out ->
  emits_step_function_lookup intervals data_times.
Proof.
  intros Hne Hstarts Htimes Hfirst Hrun Hall.
  destruct intervals as [|iv rest]; [contradiction|]. simpl in Hfirst.
  exists out.
  pose proof (Forall2_length Hall) as Hlen.
  pose proof (Forall2_nth_error_l _ _ _ Hall) as Hnth.
  split; [exact Hrun|]. split; [now symmetry|]. split; [exact Hnth|].
  assert (Hopp : forall i k, nth_error out i = Some k ->
                   exists iv', nth_error (iv :: rest) i = Some iv' /\
                               greatest_index_le data_times (fst iv') k).
  { intros i k Hk.
    destruct (nth_error (iv :: rest) i) as [iv'|] eqn:Hi.
    - destruct (Hnth _ _ Hi) as (k' & Hk' & Hg).
      rewrite Hk in Hk'. inversion Hk'; subst. eauto.
    - apply nth_error_None in Hi.
      assert (i < length out)%nat by (apply nth_error_Some; congruence).
      exfalso. lia. }
  split.
  - intros a b ka kb Hab Ha Hb.
    destruct (Hopp _ _ Ha) as (iva & Hiva & [(va & Hva & Hvale) _]).
    destruct (Hopp _ _ Hb) as (ivb & Hivb & [_ Hmax]).
    apply (Hmax ka va Hva).
    assert (fst iva <= fst ivb).
    { apply (StronglySorted_nth_le _ Hstarts a b); auto.
      - now apply map_nth_error.
      - now apply map_nth_error. }
    lia.
  - destruct (Hnth 0%nat iv eq_refl) as (k & Hk & [(v & Hv & Hvle) _]).
    rewrite Hk. f_equal.
    destruct k as [|k]; [reflexivity|exfalso].
    assert (Hlt : (0 < S k)%nat) by lia.
    pose proof (StronglySorted_nth_lt _ Htimes _ _ _ _ Hlt Hfirst Hv). lia.
Qed.

(** The scan from its initial state, on a grid of starts. *)
Lemma data_indexes_lookup_on_grid (intervals : list interval)
  (data_times : list Z) :
  StronglySorted Z.le (map fst intervals) ->
  StronglySorted Z.lt data_times ->
  nth_error data_times 0 = nth_error (map fst intervals) 0 ->
  change_times_on_grid intervals data_times ->
  exists out,
    data_indexes_for_intervals intervals data_times = Ok out /\
    Forall2 (fun iv k => greatest_index_le data_times (fst iv) k) intervals out.
Proof.
  intros Hstarts Htimes Hfirst Hgrid.
  destruct (data_indexes_loop_lookup data_times Htimes intervals
              0%nat None []) as (out & Hrun & Hall).
  - assumption.
  - intros t s Ht Hs Hle. left. eapply Hgrid; eauto.
  - destruct intervals as [|iv rest]; [exact I|]. simpl in *.
    exists (fst iv). split; [assumption|now left].
  - exists out. split; [exact Hrun|exact Hall].
Qed.

(** C3, as the code has it. For a non-empty interval list with
    non-decreasing starts and a strictly increasing change-time sequence that
    begins at the first start, such that every change time reached by some
    interval start is itself an interval start, [data_indexes_for_intervals]
    returns one index per interval, the index for interval [i] is the
    greatest [k] with [data_times[k] <= intervals[i].start], the indexes are
    non-decreasing and the first one is [0]. *)
Theorem data_indexes_step_function_on_grid :
  forall (intervals : list interval) (data_times : list Z),
    intervals <> [] ->
    StronglySorted Z.le (map fst intervals) ->
    StronglySorted Z.lt data_times ->
    nth_error data_times 0 = nth_error (map fst intervals) 0 ->
    change_times_on_grid intervals data_times ->
    emits_step_function_lookup intervals data_times.
Proof.
  intros intervals data_times Hne Hstarts Htimes Hfirst Hgrid.
  destruct (data_indexes_lookup_on_grid intervals data_times
              Hstarts Htimes Hfirst Hgrid) as (out & Hrun & Hall).
  now apply (step_function_lookup_of_greatest intervals data_times out).
Qed.

Lemma data_indexes_step_function_on_grid_witness :
  emits_step_function_lookup [(0, 1); (1, 3); (3, 8); (8, 9)] [0; 3].
Proof.
  apply data_indexes_step_function_on_grid.
  - discriminate.
  - simpl. repeat constructor; lia.
  - repeat constructor; lia.
  - reflexivity.
  - intros t s Ht Hs Hle. simpl in *. intuition lia.
Defined.

(** The mapper compares with [==] and moves its cursor one place at a time.
    A change time that falls between two interval starts is never picked
    up: with change times [0, 3], index [1] is in force at start [4], and
    [0] is emitted. A repeated change time leaves the cursor behind: with
    change times [0, 0], index [1] is in force at start [0], and [0] is
    emitted. Starts that are out of order are not looked up either. *)
Lemma data_indexes_off_grid_counterexample :
  (StronglySorted Z.le [0; 3] /\
   nth_error [0; 3] 0 = nth_error (map fst [(0, 2); (2, 4); (4, 6)]) 0 /\
   data_indexes_for_intervals [(0, 2); (2, 4); (4, 6)] [0; 3]
   = Ok [0; 0; 0]%nat /\
   ~ emits_step_function_lookup [(0, 2); (2, 4); (4, 6)] [0; 3]) /\
  (StronglySorted Z.le [0; 0] /\
   nth_error [0; 0] 0 = nth_error (map fst [(0, 1)]) 0 /\
   data_indexes_for_intervals [(0, 1)] [0; 0] = Ok [0]%nat /\
   ~ emits_step_function_lookup [(0, 1)] [0; 0]) /\
  (StronglySorted Z.le [0; 3; 5] /\
   nth_error [0; 3; 5] 0 = nth_error (map fst [(0, 1); (5, 6); (3, 4)]) 0 /\
   data_indexes_for_intervals [(0, 1); (5, 6); (3, 4)] [0; 3; 5]
   = Ok [0; 0; 1]%nat /\
   ~ emits_step_function_lookup [(0, 1); (5, 6); (3, 4)] [0; 3; 5]).
Proof.
  split; [|split].
  - split; [repeat constructor; lia|].
    split; [reflexivity|]. split; [reflexivity|].
    intros (indexes & Hrun & _ & Hall & _).
    vm_compute in Hrun. inversion Hrun; subst indexes.
    destruct (Hall 2%nat (4, 6) eq_refl) as (k & Hk & _ & Hmax).
    simpl in Hk. inversion Hk; subst k.
    specialize (Hmax 1%nat 3 eq_refl). simpl in Hmax. lia.
  - split; [repeat constructor; lia|].
    split; [reflexivity|]. split; [reflexivity|].
    intros (indexes & Hrun & _ & Hall & _).
    vm_compute in Hrun. inversion Hrun; subst indexes.
    destruct (Hall 0%nat (0, 1) eq_refl) as (k & Hk & _ & Hmax).
    simpl in Hk. inversion Hk; subst k.
    specialize (Hmax 1%nat 0 eq_refl). simpl in Hmax. lia.
  - split; [repeat constructor; lia|].
    split; [reflexivity|]. split; [reflexivity|].
    intros (indexes & Hrun & _ & Hall & _).
    vm_compute in Hrun. inversion Hrun; subst indexes.
    destruct (Hall 1%nat (5, 6) eq_refl) as (k & Hk & _ & Hmax).
    simpl in Hk. inversion Hk; subst k.
    specialize (Hmax 2%nat 5 eq_refl). simpl in Hmax. lia.
Qed.

(** C10. [current_data] is assigned only in the branch where the change time
    under the cursor equals the interval start. With at least one interval
    and one change time, the mapper returns a list exactly when the first
    interval's start equals [data_times[0]]; otherwise the first lookup reads
    the unassigned variable and raises [UnboundLocalError]. *)
Theorem data_indexes_unassigned_unless_first_start_matches :
  forall (first : interval) (rest : list interval) (t0 : Z) (ts : list Z),
    ((exists indexes,
        data_indexes_for_intervals (first :: rest) (t0 :: ts) = Ok indexes)
     <-> t0 = fst first) /\
    (t0 <> fst first ->
     data_indexes_for_intervals (first :: rest) (t0 :: ts)
     = Raise UnboundLocalError).
Proof.
  intros first rest t0 ts.
  unfold data_indexes_for_intervals. cbn [data_indexes_loop item nth_error bind].
  destruct (Z.eqb_spec t0 (fst first)) as [Heq|Hne].
  - split; [|contradiction]. split; [trivial|]. intros _.
    apply data_indexes_loop_assigned.
    destruct (Nat.ltb_spec (0 + 1) (length (t0 :: ts))); simpl in *; lia.
  - split; [|reflexivity]. split; [|contradiction].
    intros (indexes & H). discriminate.
Qed.

(** The doctests of the two functions. *)
Example times_to_intervals_doctest :
  times_to_intervals [0; 4; 5; 8; 9; 12]
  = Ok [(0, 4); (4, 5); (5, 8); (8, 9); (9, 12)].
Proof. reflexivity. Qed.

Example data_indexes_for_intervals_doctest :
  data_indexes_for_intervals [(0, 4); (4, 5); (5, 8)] [0; 5]
  = Ok [0; 0; 1]%nat /\
  data_indexes_for_intervals [(0, 3); (3, 4); (4, 5); (5, 6)] [0; 3; 4; 5; 6]
  = Ok [0; 1; 2; 3]%nat /\
  data_indexes_for_intervals [(0, 1); (1, 3); (3, 8); (8, 9)] [0; 3]
  = Ok [0; 0; 1; 1]%nat.
Proof. repeat split; reflexivity. Qed.

(** ** Checkpoint Merger *)

(** The doctests of [determine_simulation_times] that the code meets. *)
Example determine_simulation_times_doctest :
  determine_simulation_times 10 2 9 [0; 3; 5] = Some (Ok [0; 2; 3; 4; 5; 6; 8]) /\
  determine_simulation_times 20 1 10 [0; 2; 5]
  = Some (Ok [0; 1; 2; 3; 4; 5; 6; 7; 8; 9; 10]) /\
  determine_simulation_times 10 3 11 [0; 5] = Some (Ok [0; 3; 5; 6; 9]) /\
  determine_simulation_times 10 4 16 [0; 4; 12] = Some (Ok [0; 4; 8; 12; 16]) /\
  determine_simulation_times 10 4 16 [0; 4; 12; 20]
  = Some (Ok [0; 4; 8; 12; 16]).
Proof. repeat split; reflexivity. Qed.

(** More fuel never changes a result. *)
Lemma determine_simulation_times_loop_fuel :
  forall fuel time_step max_time change_times current_time simulation_times
         idx next_change_time r extra,
    determine_simulation_times_loop fuel time_step max_time change_times
      current_time simulation_times idx next_change_time = Some r ->
    determine_simulation_times_loop (fuel + extra) time_step max_time
      change_times current_time simulation_times idx next_change_time = Some r.
Proof.
  induction fuel as [|fuel IH]; intros until extra; intros H; [discriminate|].
  cbn [determine_simulation_times_loop Nat.add] in *.
  destruct (current_time <? max_time); [|assumption].
  destruct (insert_change_time _ _ _ _ _ _) as [[[st i] nct]|e]; [|assumption].
  destruct (current_time + time_step >? max_time); [assumption|].
  now apply IH.
Qed.

Lemma determine_simulation_times_fuel :
  forall fuel time_step max_time change_times r extra,
    determine_simulation_times fuel time_step max_time change_times = Some r ->
    determine_simulation_times (fuel + extra) time_step max_time change_times
    = Some r.
Proof.
  unfold determine_simulation_times. intros until extra.
  destruct (item change_times (0 + 1)); [|trivial].
  apply determine_simulation_times_loop_fuel.
Qed.

(** With a positive step the loop ends: [max_time + 1] iterations are
    enough. *)
Lemma determine_simulation_times_loop_terminates :
  forall time_step max_time change_times,
    0 < time_step ->
    forall fuel current_time simulation_times idx next_change_time,
      (Z.to_nat (max_time - current_time) < fuel)%nat ->
      exists r,
        determine_simulation_times_loop fuel time_step max_time change_times
          current_time simulation_times idx next_change_time = Some r.
Proof.
  intros time_step max_time change_times Hstep.
  induction fuel as [|fuel IH]; intros ct st idx nct Hfuel; [lia|].
  cbn [determine_simulation_times_loop].
  destruct (Z.ltb_spec ct max_time) as [Hlt|Hge]; [|eauto].
  destruct (insert_change_time _ _ _ _ _ _) as [[[st' i'] nct']|e]; [|eauto].
  destruct (ct + time_step >? max_time); [eauto|].
  apply IH. lia.
Qed.

(** With a positive step [determine_simulation_times] returns a list or
    raises within [max_time + 1] iterations of its loop. *)
Lemma determine_simulation_times_terminates :
  forall time_step max_time change_times,
    0 < time_step ->
    exists r,
      determine_simulation_times (Z.to_nat max_time + 1) time_step max_time
        change_times = Some r.
Proof.
  intros time_step max_time change_times Hstep.
  unfold determine_simulation_times.
  destruct (item change_times (0 + 1)); [|eauto].
  apply determine_simulation_times_loop_terminates; [assumption|].
  rewrite Z.sub_0_r. lia.
Qed.

(** C1. The procedural merger is meant to equal the sorted deduplication of
    the periodic checkpoints and the change times up to [max_time], and the
    function's last doctest says so for [step = 3], [max_time = 14],
    [changes = [0, 2, 6, 7]]. On that input the code returns
    [[0, 2, 3, 6, 9, 12]]: once the pending change time [6] coincides with a
    periodic checkpoint the cursor never advances, and [7] is lost. The
    formulation of the specification, and the merge [main] uses, both give
    [[0, 2, 3, 6, 7, 9, 12]]. *)
Theorem determine_simulation_times_loses_change_after_coincidence :
  forall extra : nat,
    determine_simulation_times (5 + extra) 3 14 [0; 2; 6; 7]
    = Some (Ok [0; 2; 3; 6; 9; 12]) /\
    checkpoint_merger_spec 3 14 [0; 2; 6; 7] = [0; 2; 3; 6; 7; 9; 12] /\
    simulation_times_of_main 3 14 [0; 2; 6; 7] = Ok [0; 2; 3; 6; 7; 9; 12].
Proof.
  intros extra.
  split; [|split; reflexivity].
  apply determine_simulation_times_fuel. reflexivity.
Qed.

(** C2. No checkpoint should exceed [max_time], and the doctest with change
    time [20] and [max_time = 16] shows [20] dropped. The code drops it only
    when it lies beyond the last window: for [step = 3], [max_time = 4],
    [change_times = [0, 5]] the change time [5] is inside the window
    [(3, 6)] that the loop still enters, and it is emitted. The merge in
    [main] restricts nothing and keeps [20]. *)
Theorem checkpoints_beyond_max_time_are_emitted :
  forall extra : nat,
    determine_simulation_times (2 + extra) 3 4 [0; 5] = Some (Ok [0; 3; 5]) /\
    ~ Forall (fun t => t <= 4) [0; 3; 5] /\
    determine_simulation_times (5 + extra) 4 16 [0; 4; 12; 20]
    = Some (Ok [0; 4; 8; 12; 16]) /\
    simulation_times_of_main 4 16 [0; 4; 12; 20] = Ok [0; 4; 8; 12; 16; 20].
Proof.
  intros extra.
  split; [apply determine_simulation_times_fuel; reflexivity|].
  split.
  - intros H. inversion H as [|? ? _ H1]; subst.
    inversion H1 as [|? ? _ H2]; subst.
    inversion H2 as [|? ? H3 _]; subst. lia.
  - split; [apply determine_simulation_times_fuel; reflexivity|reflexivity].
Qed.

(** ** Output Namer and the plan *)

Example format_order_doctest :
  format_order 2 3 = "002"%string /\
  format_order 3 1 = "3"%string /\
  format_order 5269 4 = "5269"%string /\
  map (fun number => format_order number 4) [5; 56; 8547; 189; 0]
  = ["0005"; "0056"; "8547"; "0189"; "0000"]%string.
Proof. repeat split; reflexivity. Qed.

Lemma for_each_append_map {A B : Type} (f : A -> B) (l : list A) :
  forall acc,
    for_each (fun x names => Ok (names ++ [f x])) l acc = Ok (acc ++ map f l).
Proof.
  induction l as [|x l IH]; intros acc; cbn [for_each map bind].
  - now rewrite app_nil_r.
  - rewrite IH. now rewrite <- app_assoc.
Qed.

Lemma nth_error_last {A : Type} (l : list A) (d : A) :
  l <> [] -> nth_error l (length l - 1) = Some (last l d).
Proof.
  induction l as [|x l IH]; intros Hne; [contradiction|].
  destruct l as [|y l]; [reflexivity|].
  cbn [length last] in *. rewrite <- IH by discriminate.
  replace (S (S (length l)) - 1)%nat with (S (S (length l) - 1)) by lia.
  reflexivity.
Qed.

Lemma getitem_last {A : Type} (l : list A) (d : A) :
  l <> [] -> getitem l (-1) = Ok (last l d).
Proof.
  intros Hne. unfold getitem. cbn [Z.ltb Z.compare].
  assert (0 < length l)%nat by (destruct l; [contradiction|simpl; lia]).
  destruct (Z.ltb_spec (-1 + Z.of_nat (length l)) 0); [lia|].
  destruct (Z.leb_spec (Z.of_nat (length l)) (-1 + Z.of_nat (length l)));
    [lia|]. cbn [orb].
  replace (Z.to_nat (-1 + Z.of_nat (length l))) with (length l - 1)%nat by lia.
  apply item_nth_error. now apply nth_error_last.
Qed.

Lemma output_names_length (int_log10 : Z -> Z) (basename : string)
  (intervals : list interval) :
  intervals <> [] ->
  0 < snd (last intervals (0, 0)) ->
  exists outputs,
    output_names_for_intervals int_log10 basename intervals = Ok outputs /\
    length outputs = length intervals.
Proof.
  intros Hne Hpos. unfold output_names_for_intervals.
  rewrite (getitem_last _ (0, 0) Hne). cbn [bind].
  unfold number_lenght.
  destruct (Z.leb_spec (snd (last intervals (0, 0))) 0); [lia|]. cbn [bind].
  rewrite for_each_append_map. eexists. split; [reflexivity|].
  now rewrite app_nil_l, length_map.
Qed.

Lemma data_indexes_loop_length (data_times : list Z) :
  forall intervals i current_data indexes out,
    data_indexes_loop intervals data_times i current_data indexes = Ok out ->
    length out = (length indexes + length intervals)%nat.
Proof.
  induction intervals as [|iv rest IH]; intros i cd indexes out H;
    cbn [data_indexes_loop] in H.
  - inversion H. simpl. lia.
  - destruct (item data_times i) as [t|e]; [|discriminate]. cbn [bind] in H.
    destruct (t =? fst iv).
    + apply IH in H. rewrite length_app in H. simpl in *. lia.
    + destruct cd as [c|]; [|discriminate].
      apply IH in H. rewrite length_app in H. simpl in *. lia.
Qed.

Lemma checkpoint_intervals_end_positive (simulation_times : list Z) :
  checkpoint_sequence simulation_times ->
  Forall (fun iv : interval => 0 < snd iv)
    (combine simulation_times (tl simulation_times)).
Proof.
  intros [Hs Hpos]. apply Forall_forall. intros iv Hin.
  destruct (In_nth_error _ _ Hin) as [i Hi].
  assert (Hlen : (i < length (combine simulation_times (tl simulation_times)))%nat)
    by (apply nth_error_Some; congruence).
  rewrite length_combine_tl in Hlen.
  rewrite nth_error_combine_tl in Hi by lia. inversion Hi; subst iv.
  cbn [snd].
  assert (Ha : nth_error simulation_times i = Some (nth i simulation_times 0))
    by (apply nth_error_nth'; lia).
  assert (Hb : nth_error simulation_times (i + 1)
               = Some (nth (i + 1) simulation_times 0))
    by (apply nth_error_nth'; lia).
  assert (Hlt : (i < i + 1)%nat) by lia.
  pose proof (StronglySorted_nth_lt _ Hs _ _ _ _ Hlt Ha Hb).
  rewrite Forall_forall in Hpos.
  pose proof (Hpos _ (nth_error_In _ _ Ha)). lia.
Qed.

Lemma data_indexes_first_start_matches (first : interval)
  (rest : list interval) (t0 : Z) (ts : list Z) :
  t0 = fst first ->
  exists indexes,
    data_indexes_for_intervals (first :: rest) (t0 :: ts) = Ok indexes.
Proof.
  intros Heq. unfold data_indexes_for_intervals.
  cbn [data_indexes_loop item nth_error bind].
  rewrite (proj2 (Z.eqb_eq _ _) Heq).
  apply data_indexes_loop_assigned.
  destruct (Nat.ltb_spec (0 + 1) (length (t0 :: ts))); simpl in *; lia.
Qed.

Lemma last_in {A : Type} (l : list A) (d : A) : l <> [] -> In (last l d) l.
Proof.
  intros Hne. rewrite (app_removelast_last d Hne) at 2.
  apply in_or_app. right. now left.
Qed.

(** C9. For a checkpoint sequence (non-negative, strictly ascending) of
    length [n >= 2] and change times that start at the first checkpoint, the
    three functions the plan is built from all return, and the intervals,
    the parameter index map and the output names each have length
    [n - 1]. *)
Theorem plan_sequences_have_equal_length :
  forall (int_log10 : Z -> Z) (basename : string)
         (simulation_times change_times : list Z),
    checkpoint_sequence simulation_times ->
    (2 <= length simulation_times)%nat ->
    nth_error change_times 0 = nth_error simulation_times 0 ->
    exists intervals data_indexes outputs,
      times_to_intervals simulation_times = Ok intervals /\
      data_indexes_for_intervals intervals change_times = Ok data_indexes /\
      output_names_for_intervals int_log10 basename intervals = Ok outputs /\
      length intervals = (length simulation_times - 1)%nat /\
      length data_indexes = (length simulation_times - 1)%nat /\
      length outputs = (length simulation_times - 1)%nat.
Proof.
  intros int_log10 basename l ct Hseq Hlen Hfirst.
  pose proof (length_combine_tl l) as Hn.
  pose proof (checkpoint_intervals_end_positive l Hseq) as Hpos.
  exists (combine l (tl l)).
  destruct l as [|a [|b l]]; simpl in Hlen; try lia.
  destruct ct as [|t0 ts]; [discriminate|].
  simpl in Hfirst. inversion Hfirst; subst t0.
  set (ivs := combine (a :: b :: l) (tl (a :: b :: l))) in *.
  assert (Hne : ivs <> []) by (subst ivs; discriminate).
  destruct (data_indexes_first_start_matches (a, b) (combine (b :: l) l) a ts
              eq_refl) as (idx & Hidx).
  destruct (output_names_length int_log10 basename ivs Hne) as (outs & Hout & Hol).
  { rewrite Forall_forall in Hpos. apply Hpos. now apply last_in. }
  exists idx, outs.
  split; [apply times_to_intervals_combine|].
  split; [exact Hidx|]. split; [exact Hout|].
  split; [exact Hn|]. split; [|congruence].
  unfold data_indexes_for_intervals in Hidx.
  apply data_indexes_loop_length in Hidx. rewrite Hidx. exact Hn.
Qed.

Lemma plan_sequences_have_equal_length_witness :
  exists intervals data_indexes outputs,
    times_to_intervals [0; 2; 3; 4; 5; 6; 8] = Ok intervals /\
    data_indexes_for_intervals intervals [0; 3; 5] = Ok data_indexes /\
    output_names_for_intervals (fun _ => 0) "fire" intervals = Ok outputs /\
    length intervals = 6%nat /\
    length data_indexes = 6%nat /\
    length outputs = 6%nat.
Proof.
  apply (plan_sequences_have_equal_length (fun _ => 0) "fire"
           [0; 2; 3; 4; 5; 6; 8] [0; 3; 5]).
  - split; repeat constructor; lia.
  - simpl. lia.
  - reflexivity.
Defined.

(** C7. The width is computed in floating point, as
    [int(log(maximum, 10)) + 1]. In IEEE double arithmetic
    [log(1000, 10) = log(1000) / log(10)] is [2.9999999999999996], which
    [int] truncates to [2]; with that value the width for a final end time
    of [1000] is [3], the names are not padded to the four digits of
    [1000], and the later name sorts first. *)
Theorem output_names_width_short_at_1000 :
  forall int_log10 : Z -> Z,
    int_log10 1000 = 2 ->
    number_lenght int_log10 1000 = Ok 3 /\
    String.length (str 1000) = 4%nat /\
    output_names_for_intervals int_log10 "fire" [(0, 500); (500, 1000)]
    = Ok ["fire_500"; "fire_1000"]%string /\
    String.ltb "fire_1000" "fire_500" = true.
Proof.
  intros int_log10 H.
  assert (Hwidth : number_lenght int_log10 1000 = Ok 3).
  { unfold number_lenght. rewrite H. reflexivity. }
  split; [exact Hwidth|]. split; [reflexivity|]. split; [|reflexivity].
  unfold output_names_for_intervals.
  replace (getitem [(0, 500); (500, 1000)] (-1)) with (Ok (500, 1000))
    by reflexivity.
  cbn [bind snd]. rewrite Hwidth. reflexivity.
Qed.

Lemma output_names_width_short_at_1000_witness :
  number_lenght (fun number => if number =? 1000 then 2 else 0) 1000 = Ok 3 /\
  String.length (str 1000) = 4%nat /\
  output_names_for_intervals (fun number => if number =? 1000 then 2 else 0)
    "fire" [(0, 500); (500, 1000)]
  = Ok ["fire_500"; "fire_1000"]%string /\
  String.ltb "fire_1000" "fire_500" = true.
Proof.
  apply (output_names_width_short_at_1000
           (fun number => if number =? 1000 then 2 else 0)).
  reflexivity.
Defined.

(** ** Pipeline Orchestrator *)

Section OrchestratorProperties.

Variable run : list event -> command -> Z.
Variable params : FireSimulationParams.
Variable data_indexes : list nat.
Variable outputs : list string.

(** Both monitors on a short, explicit log: case analysis on the statuses
    that are not literal. *)
Ltac monitors_hold :=
  split;
  [ cbn [fail_fast is_r_info is_r_spread orb andb];
    change (0 =? 0) with true;
    repeat match goal with
           | |- context [?x =? 0] => destruct (x =? 0)
           end;
    reflexivity
  | repeat constructor; intros rast E; cbn in E; inversion E; reflexivity ].

Lemma item_Ok_nth_error {A : Type} (l : list A) (i : nat) (x : A) :
  item l i = Ok x -> nth_error l i = Some x.
Proof. unfold item. destruct (nth_error l i); congruence. Qed.

Lemma simulate_interval_cases (idx : nat) (iv : interval) (d : dict)
  (seed : string) (log : list event) :
  (exists p o info,
     simulate_interval run params data_indexes outputs idx iv d seed log
     = (Ok (p, o), log ++ segment_events p seed o iv info) /\
     nth_error outputs idx = Some o) \/
  (exists e part,
     simulate_interval run params data_indexes outputs idx iv d seed log
     = (Raise e, log ++ part) /\
     aborted_part outputs seed idx iv part /\
     fail_fast part = true /\
     Forall removes_only_transient part).
Proof.
  unfold simulate_interval, bind_action, lift, write_command, run_command,
    read_command, fatal, pure.
  destruct (select_parameters params data_indexes idx d) as [p|e].
  2:{ right. exists e, []. rewrite app_nil_r. split; [reflexivity|].
      split; [now left|]. split; [reflexivity|constructor]. }
  destruct (Z.eqb_spec (run log (r_ros p)) 0) as [E1|N1]; cbn [negb].
  2:{ right. exists (Fatal RRosFailed), [(r_ros p, run log (r_ros p))].
      split; [reflexivity|]. split; [right; left; eauto|]. monitors_hold. }
  rewrite E1.
  destruct (item outputs idx) as [o|e] eqn:Ho.
  2:{ right. exists e, [(r_ros p, 0)]. split; [reflexivity|].
      split; [right; left; eauto|]. monitors_hold. }
  apply item_Ok_nth_error in Ho.
  repeat rewrite <- app_assoc. cbn [app].
  set (sp := r_spread ros_max ros_maxdir ros_base seed o
               (fst iv) (snd iv - fst iv)).
  destruct (Z.eqb_spec (run (log ++ [(r_ros p, 0)]) sp) 0) as [E2|N2];
    cbn [negb].
  2:{ right. eexists. eexists. split; [reflexivity|].
      split; [|subst sp; monitors_hold].
      right. right. exists p, o. eexists. eexists.
      split; [exact Ho|]. split; reflexivity. }
  rewrite E2.
  set (info := run _ (r_info o)).
  destruct (Z.eqb_spec (run (log ++ [(r_ros p, 0); (sp, 0); (r_info o, info)])
                          (g_remove [ros_base; ros_max; ros_maxdir])) 0)
    as [E3|N3]; cbn [negb].
  2:{ right. eexists. eexists.
      split; [rewrite <- ?app_assoc; cbn [app]; reflexivity|].
      split; [|subst sp; monitors_hold].
      right. right. exists p, o. eexists. eexists.
      split; [exact Ho|]. split; reflexivity. }
  rewrite E3. repeat rewrite <- app_assoc. cbn [app].
  match goal with
  | |- context [run ?l (r_null o 0) =? 0] =>
      destruct (Z.eqb_spec (run l (r_null o 0)) 0) as [E4|N4]; cbn [negb]
  end.
  2:{ right. eexists. eexists.
      split; [rewrite <- ?app_assoc; cbn [app]; reflexivity|].
      split; [|subst sp; monitors_hold].
      right. right. exists p, o. eexists. eexists.
      split; [exact Ho|]. split; reflexivity. }
  rewrite E4. repeat rewrite <- app_assoc. cbn [app].
  match goal with
  | |- context [run ?l (r_colors o "-" color_rules) =? 0] =>
      destruct (Z.eqb_spec (run l (r_colors o "-" color_rules)) 0)
        as [E5|N5]; cbn [negb]
  end.
  2:{ right. eexists. eexists.
      split; [rewrite <- ?app_assoc; cbn [app]; reflexivity|].
      split; [|subst sp; monitors_hold].
      right. right. exists p, o. eexists. eexists.
      split; [exact Ho|]. split; reflexivity. }
  rewrite E5. left. exists p, o, info.
  split; [|exact Ho]. rewrite <- ?app_assoc. reflexivity.
Qed.

Lemma seed_at_shift (seed o : string) (idx k : nat) :
  nth_error outputs idx = Some o ->
  seed_at outputs o (S idx) k = seed_at outputs seed idx (S k).
Proof.
  intros Ho. destruct k as [|j]; cbn [seed_at].
  - rewrite Nat.add_0_r. symmetry. now apply nth_error_nth.
  - f_equal. lia.
Qed.

Lemma spread_events_segment (p : dict) (seed o : string) (iv : interval)
  (info : Z) (body : list event) :
  spread_events (segment_events p seed o iv info ++ body)
  = (r_spread ros_max ros_maxdir ros_base seed o (fst iv) (snd iv - fst iv), 0)
    :: spread_events body.
Proof. reflexivity. Qed.


Lemma segment_events_monitors (p : dict) (seed o : string) (iv : interval)
  (info : Z) (body : list event) :
  fail_fast (segment_events p seed o iv info ++ body) = fail_fast body /\
  Forall removes_only_transient (segment_events p seed o iv info).
Proof.
  split; [reflexivity|].
  repeat constructor; intros rast E; cbn in E; inversion E; reflexivity.
Qed.

Lemma simulate_fire_loop_fail_fast :
  forall rest idx d seed log r log',
    simulate_fire_loop run params data_indexes outputs rest idx d seed log
    = (r, log') ->
    exists body,
      log' = log ++ body /\
      fail_fast body = true /\
      Forall removes_only_transient body.
Proof.
  induction rest as [|iv rest IH]; intros idx d seed log r log' H.
  - cbn in H. inversion H; subst. exists []. rewrite app_nil_r.
    split; [reflexivity|]. split; [reflexivity|constructor].
  - cbn [simulate_fire_loop] in H. unfold bind_action in H.
    destruct (simulate_interval_cases idx iv d seed log)
      as [(p & o & info & Heq & Ho)|(e & part & Heq & _ & Hff & Hrm)];
      rewrite Heq in H.
    + cbn [fst snd] in H.
      destruct (IH _ _ _ _ _ _ H) as (body & Hlog & Hff & Hrm).
      destruct (segment_events_monitors p seed o iv info body) as [Hseg Hsegrm].
      exists (segment_events p seed o iv info ++ body).
      split; [now rewrite app_assoc|].
      split; [now rewrite Hseg|]. apply Forall_app. now split.
    + inversion H; subst r log'. exists part. auto.
Qed.

End OrchestratorProperties.

(** C5. A failed module is to end the run with nothing started after it.
    The status of [r.ros], [g.remove], [r.null] and [r.colors] is checked
    right after the call. The status of [r.spread] is checked only after
    [read_command('r.info', map=outputs[index])] has run (lines 476-484):
    when [r.spread] fails, one more module is started before the run
    aborts. *)
Theorem r_info_started_after_failed_r_spread :
  simulate_fire spread_fails example_params [(0, 4); (4, 5)] [0; 1]%nat
    ["fire_4"; "fire_5"]%string []
  = (Raise (Fatal RSpreadFailed),
     [(r_ros [("model", "fuel"); ("slope", "slope"); ("aspect", "aspect");
              ("elevation", "elevation"); ("output", ros_basename);
              ("moisture_live", "live_a")]%string, 0);
      (r_spread ros_max ros_maxdir ros_base "start" "fire_4" 0 4, 1);
      (r_info "fire_4", 0)]).
Proof. vm_compute. reflexivity. Qed.

(** In every run the log is fail-fast up to that one [r.info] query, and
    nothing but the three transient rate-of-spread maps is ever removed: a
    module that returned a non-zero status is never started again, and the
    outputs of earlier segments stay. *)
Theorem simulate_fire_fail_fast :
  forall (run : list event -> command -> Z) (params : FireSimulationParams)
         (simulation_intervals : list interval) (data_indexes : list nat)
         (outputs : list string),
    fail_fast (snd (simulate_fire run params simulation_intervals
                      data_indexes outputs [])) = true /\
    Forall removes_only_transient
      (snd (simulate_fire run params simulation_intervals data_indexes
              outputs [])).
Proof.
  intros run params ivs idxs outs.
  unfold simulate_fire, bind_action.
  match goal with
  | |- context [simulate_fire_loop ?a ?b ?c ?d ?e ?f ?g ?h ?i] =>
      destruct (simulate_fire_loop a b c d e f g h i) as [r' log'] eqn:Hloop
  end.
  destruct (simulate_fire_loop_fail_fast _ _ _ _ _ _ _ _ _ _ _ Hloop)
    as (body & Hlog & Hff & Hrm).
  cbn [app] in Hlog. subst body.
  destruct r'; cbn [snd pure]; auto.
Qed.

(** ** [main]: the length check *)

Lemma check_lengths_mismatch (n : nat) (vectors : list (option (list string))) :
  (exists v, In (Some v) vectors /\ length v <> n) ->
  exists v,
    In (Some v) vectors /\ length v <> n /\
    check_lengths n vectors = Raise (Fatal (LenghtsDoesNotMatch n v)).
Proof.
  unfold check_lengths.
  induction vectors as [|i vectors IH]; intros (v & Hin & Hlen).
  - contradiction.
  - cbn [for_each].
    destruct i as [w|].
    + destruct (Nat.eqb_spec (length w) n) as [Heq|Hne]; cbn [negb bind].
      * destruct Hin as [E|Hin]; [inversion E; subst; contradiction|].
        destruct IH as (v' & Hin' & Hlen' & Hrun); [eauto|].
        exists v'. split; [now right|]. split; assumption.
      * exists w. split; [now left|]. split; [assumption|reflexivity].
    + cbn [bind].
      destruct Hin as [E|Hin]; [discriminate|].
      destruct IH as (v' & Hin' & Hlen' & Hrun); [eauto|].
      exists v'. split; [now right|]. split; assumption.
Qed.

Lemma check_lengths_pass (n : nat) (vectors : list (option (list string))) :
  (forall v, In (Some v) vectors -> length v = n) ->
  check_lengths n vectors = Ok tt.
Proof.
  unfold check_lengths.
  induction vectors as [|i vectors IH]; intros Hall; [reflexivity|].
  cbn [for_each].
  destruct i as [w|].
  - rewrite (proj2 (Nat.eqb_eq _ _) (Hall w (or_introl eq_refl))).
    cbn [negb bind]. apply IH. intros v Hv. apply Hall. now right.
  - cbn [bind]. apply IH. intros v Hv. apply Hall. now right.
Qed.

(** C8. If a vector that is present among live, 1-hour, 10-hour and 100-hour
    moisture, wind direction and wind speed has a length other than
    [len(change_times)], [main] ends with the fatal length message for such
    a vector and an empty log: no plan function has run (whatever the step
    or the horizon) and no module was started. Absent vectors put no
    condition: when every present vector has the right length the check
    passes and [main] goes on to build the plan. *)
Theorem main_checks_lengths_before_plan :
  forall (run : list event -> command -> Z) (int_log10 : Z -> Z)
         (options : parsed_options),
    ((exists v,
        In (Some v) (checked_vectors (sim_params_of options)) /\
        length v <> length (opt_times options)) ->
     exists v,
       In (Some v) (checked_vectors (sim_params_of options)) /\
       length v <> length (opt_times options) /\
       main run int_log10 options []
       = (Raise (Fatal (LenghtsDoesNotMatch (length (opt_times options)) v)),
          [])) /\
    ((forall v,
        In (Some v) (checked_vectors (sim_params_of options)) ->
        length v = length (opt_times options)) ->
     main run int_log10 options
     = plan_and_simulate run int_log10 (sim_params_of options)
         (opt_output options) (opt_times options) (opt_lag options)
         (opt_time_step options)).
Proof.
  intros run int_log10 options. split.
  - intros Hbad.
    destruct (check_lengths_mismatch _ _ Hbad) as (v & Hin & Hlen & Hrun).
    exists v. split; [assumption|]. split; [assumption|].
    unfold main, bind_action, lift. rewrite Hrun. reflexivity.
  - intros Hgood. unfold main, bind_action, lift.
    rewrite (check_lengths_pass _ _ Hgood). reflexivity.
Qed.

Lemma main_checks_lengths_before_plan_witness :
  exists v,
    In (Some v) (checked_vectors (sim_params_of mismatched_options)) /\
    length v <> length (opt_times mismatched_options) /\
    main always_succeeds (fun _ => 0) mismatched_options []
    = (Raise (Fatal (LenghtsDoesNotMatch
                       (length (opt_times mismatched_options)) v)),
       []).
Proof.
  apply (proj1 (main_checks_lengths_before_plan always_succeeds (fun _ => 0)
                  mismatched_options)).
  exists ["live_a"%string]. split.
  - simpl. left. reflexivity.
  - simpl. lia.
Defined.

(** The end-to-end example gives six segments, hence six [r.spread] calls,
    each seeded with the output of the one before. *)
Example main_end_to_end :
  fst (main always_succeeds (fun _ => 0) example_options []) = Ok 0 /\
  map fst (spread_events (snd (main always_succeeds (fun _ => 0)
                                 example_options [])))
  = [r_spread ros_max ros_maxdir ros_base "start" "fire_2" 0 2;
     r_spread ros_max ros_maxdir ros_base "fire_2" "fire_3" 2 1;
     r_spread ros_max ros_maxdir ros_base "fire_3" "fire_4" 3 1;
     r_spread ros_max ros_maxdir ros_base "fire_4" "fire_5" 4 1;
     r_spread ros_max ros_maxdir ros_base "fire_5" "fire_6" 5 1;
     r_spread ros_max ros_maxdir ros_base "fire_6" "fire_8" 6 2].
Proof. split; vm_compute; reflexivity. Qed.

(** ** The merge [main] performs *)

Lemma insert_sorted_In (x y : Z) (l : list Z) :
  In y (insert_sorted x l) <-> y = x \/ In y l.
Proof.
  induction l as [|z l IH]; simpl.
  - intuition.
  - destruct (x <=? z); simpl; rewrite ?IH; intuition.
Qed.

Lemma sorted_In (x : Z) (l : list Z) : In x (sorted l) <-> In x l.
Proof.
  induction l as [|y l IH]; simpl; [reflexivity|].
  rewrite insert_sorted_In, IH. intuition.
Qed.

Lemma insert_sorted_increasing (x : Z) (l : list Z) :
  StronglySorted Z.lt l -> ~ In x l ->
  StronglySorted Z.lt (insert_sorted x l).
Proof.
  induction 1 as [|y l Hs IH Hy]; intros Hnot; simpl.
  - repeat constructor.
  - rewrite Forall_forall in Hy.
    assert (x <> y) by (intros ->; apply Hnot; now left).
    destruct (Z.leb_spec x y).
    + constructor; [now constructor; [|apply Forall_forall]|].
      apply Forall_forall. intros z [<-|Hz]; [lia|].
      specialize (Hy _ Hz). lia.
    + constructor.
      * apply IH. intros Hin. apply Hnot. now right.
      * apply Forall_forall. intros z Hz.
        apply insert_sorted_In in Hz. destruct Hz as [->|Hz]; [lia|auto].
Qed.

Lemma sorted_increasing (l : list Z) :
  NoDup l -> StronglySorted Z.lt (sorted l).
Proof.
  induction 1 as [|x l Hx Hnd IH]; simpl; [constructor|].
  apply insert_sorted_increasing; [assumption|].
  now rewrite sorted_In.
Qed.

Lemma range_In (stop step t : Z) :
  0 < step ->
  forall export_times,
    range 0 stop step = Ok export_times ->
    (In t export_times <-> exists k, 0 <= k /\ t = k * step /\ t < stop).
Proof.
  intros Hstep export_times Hrange. unfold range in Hrange.
  destruct (Z.eqb_spec step 0); [lia|]. inversion Hrange; subst export_times.
  unfold range_length. destruct (Z.ltb_spec 0 step); [|lia].
  rewrite in_map_iff. split.
  - intros (k & Hk & Hin). apply in_seq in Hin. exists (Z.of_nat k).
    split; [lia|]. split; [lia|]. subst t.
    assert (Z.of_nat k < (stop - 0 + step - 1) / step) by lia.
    assert (Z.of_nat k + 1 <= (stop - 0 + step - 1) / step) by lia.
    assert ((Z.of_nat k + 1) * step <= stop - 0 + step - 1).
    { etransitivity; [apply Z.mul_le_mono_nonneg_r; [lia|eassumption]|].
      rewrite Z.mul_comm. apply Z.mul_div_le. lia. }
    lia.
  - intros (k & Hk & -> & Hlt). exists (Z.to_nat k).
    split; [lia|]. apply in_seq. split; [lia|].
    assert (k + 1 <= (stop - 0 + step - 1) / step); [|lia].
    apply Z.div_le_lower_bound; [lia|]. nia.
Qed.

(** What the merge of [main] returns, when it returns. *)
Lemma simulation_times_of_main_facts (time_step max_time : Z)
  (change_times simulation_times : list Z) :
  0 < time_step ->
  simulation_times_of_main time_step max_time change_times
  = Ok simulation_times ->
  StronglySorted Z.lt simulation_times /\
  forall t,
    In t simulation_times <->
    (exists k, 0 <= k /\ t = k * time_step /\ t <= max_time) \/
    In t change_times.
Proof.
  intros Hstep Hmerge. unfold simulation_times_of_main in Hmerge.
  destruct (range 0 (max_time + 1) time_step) as [export_times|e] eqn:Hrange;
    [|discriminate].
  cbn [bind] in Hmerge. inversion Hmerge; subst simulation_times. split.
  - apply sorted_increasing. apply NoDup_nodup.
  - intros t. rewrite sorted_In. unfold set. rewrite nodup_In, in_app_iff.
    rewrite (range_In (max_time + 1) time_step t Hstep _ Hrange).
    split; (intros [(k & Hk & Ht & Hle)|Hin]; [left|now right]);
      exists k; repeat split; auto; lia.
Qed.

(** With a positive step the merge of [main] returns a strictly ascending
    list that holds exactly the multiples of the step up to [max_time] and
    the change times (all of them, also those beyond [max_time]). *)
Theorem simulation_times_of_main_sorted_union :
  forall (time_step max_time : Z) (change_times : list Z),
    0 < time_step ->
    exists simulation_times,
      simulation_times_of_main time_step max_time change_times
      = Ok simulation_times /\
      StronglySorted Z.lt simulation_times /\
      forall t,
        In t simulation_times <->
        (exists k, 0 <= k /\ t = k * time_step /\ t <= max_time) \/
        In t change_times.
Proof.
  intros time_step max_time change_times Hstep.
  destruct (simulation_times_of_main time_step max_time change_times)
    as [simulation_times|e] eqn:Hmerge.
  - exists simulation_times. split; [reflexivity|].
    now apply (simulation_times_of_main_facts time_step max_time change_times).
  - unfold simulation_times_of_main, range in Hmerge.
    destruct (Z.eqb_spec time_step 0); [lia|]. discriminate.
Qed.

Lemma simulation_times_of_main_sorted_union_witness :
  exists simulation_times,
    simulation_times_of_main 2 9 [0; 3; 5] = Ok simulation_times /\
    StronglySorted Z.lt simulation_times /\
    forall t,
      In t simulation_times <->
      (exists k, 0 <= k /\ t = k * 2 /\ t <= 9) \/ In t [0; 3; 5].
Proof.
  apply (simulation_times_of_main_sorted_union 2 9 [0; 3; 5]). lia.
Defined.

Lemma determine_simulation_times_terminates_witness :
  exists r, determine_simulation_times (Z.to_nat 9 + 1) 2 9 [0; 3; 5] = Some r.
Proof.
  apply (determine_simulation_times_terminates 2 9 [0; 3; 5]). lia.
Defined.

(** ** The plan [main] builds meets the mapper's needs *)

Lemma map_fst_combine_tl (l : list Z) :
  map fst (combine l (tl l)) = removelast l.
Proof.
  induction l as [|x l IH]; [reflexivity|].
  destruct l as [|y l]; [reflexivity|].
  change (map fst (combine (x :: y :: l) (tl (x :: y :: l))))
    with (x :: map fst (combine (y :: l) (tl (y :: l)))).
  rewrite IH. reflexivity.
Qed.

Lemma StronglySorted_app_last (l : list Z) (x : Z) :
  StronglySorted Z.lt (l ++ [x]) ->
  StronglySorted Z.lt l /\ forall s, In s l -> s < x.
Proof.
  induction l as [|y l IH]; intros Hs; simpl in *.
  - split; [constructor|contradiction].
  - inversion Hs as [|? ? Hs' Hall]; subst.
    destruct (IH Hs') as [Hl Hlt]. rewrite Forall_forall in Hall.
    split.
    + constructor; [assumption|]. apply Forall_forall. intros z Hz.
      apply Hall. apply in_or_app. now left.
    + intros s [<-|Hin]; [|now apply Hlt].
      apply Hall. apply in_or_app. right. now left.
Qed.

Lemma StronglySorted_lt_le (l : list Z) :
  StronglySorted Z.lt l -> StronglySorted Z.le l.
Proof.
  induction 1 as [|x l Hs IH Hx]; constructor; [assumption|].
  eapply Forall_impl; [|exact Hx]. intros; simpl in *; lia.
Qed.

(** With a positive step and strictly increasing change times that start at
    [0], the intervals [main] builds from its own merge satisfy what the
    mapper relies on, so the index map [main] hands to the orchestrator is
    the step-function lookup. *)
Theorem main_plan_is_step_function_lookup :
  forall (time_step max_time : Z) (change_times simulation_times : list Z)
         (simulation_intervals : list interval),
    0 < time_step ->
    StronglySorted Z.lt change_times ->
    nth_error change_times 0 = Some 0 ->
    simulation_times_of_main time_step max_time change_times
    = Ok simulation_times ->
    times_to_intervals simulation_times = Ok simulation_intervals ->
    simulation_intervals <> [] ->
    emits_step_function_lookup simulation_intervals change_times.
Proof.
  intros step max_time ct l ivs Hstep Hct Hct0 Hmerge Hivs Hne.
  destruct (simulation_times_of_main_facts step max_time ct l Hstep Hmerge)
    as (Hsorted & Hmem).
  rewrite times_to_intervals_combine in Hivs. inversion Hivs; subst ivs.
  clear Hivs.
  assert (Hl : l <> []) by (intros ->; now apply Hne).
  pose proof (app_removelast_last 0 Hl) as Hsplit.
  assert (Hsplit' : StronglySorted Z.lt (removelast l ++ [last l 0]))
    by (rewrite <- Hsplit; assumption).
  destruct (StronglySorted_app_last _ _ Hsplit') as [Hstarts Hbelow].
  assert (Hnonneg : forall t, In t l -> 0 <= t).
  { intros t Ht. apply Hmem in Ht. destruct Ht as [(k & Hk & -> & _)|Ht].
    - nia.
    - destruct (In_nth_error _ _ Ht) as [n Hn].
      assert (Hle : (0 <= n)%nat) by lia.
      apply (StronglySorted_nth_le _ (StronglySorted_lt_le _ Hct)
               _ _ _ _ Hle Hct0 Hn). }
  assert (Hzero : In 0 l).
  { apply Hmem. right. eapply nth_error_In; eauto. }
  assert (Hstarts' : StronglySorted Z.le (map fst (combine l (tl l))))
    by (rewrite map_fst_combine_tl; now apply StronglySorted_lt_le).
  assert (Hfirst : nth_error ct 0 = nth_error (map fst (combine l (tl l))) 0).
  { rewrite map_fst_combine_tl. rewrite Hct0.
    destruct l as [|a [|b l]]; [contradiction|now elim Hne|].
    cbn [removelast nth_error]. f_equal.
    assert (0 <= a) by (apply Hnonneg; now left).
    destruct Hzero as [->|Hin]; [reflexivity|].
    inversion Hsorted as [|? ? _ Hall]; subst.
    rewrite Forall_forall in Hall. specialize (Hall _ Hin). lia. }
  assert (Hgrid : change_times_on_grid (combine l (tl l)) ct).
  { intros t s Ht Hs Hle. rewrite map_fst_combine_tl in *.
    assert (Hin : In t l) by (apply Hmem; now right).
    rewrite Hsplit in Hin. apply in_app_or in Hin.
    destruct Hin as [Hin|[<-|[]]]; [assumption|].
    specialize (Hbelow _ Hs). lia. }
  destruct (data_indexes_lookup_on_grid _ ct Hstarts' Hct Hfirst Hgrid)
    as (out & Hrun & Hall).
  now apply (step_function_lookup_of_greatest _ ct out).
Qed.

Lemma main_plan_is_step_function_lookup_witness :
  emits_step_function_lookup
    [(0, 2); (2, 3); (3, 4); (4, 5); (5, 6); (6, 8)] [0; 3; 5].
Proof.
  apply (main_plan_is_step_function_lookup 2 9 [0; 3; 5]
           [0; 2; 3; 4; 5; 6; 8]).
  - lia.
  - repeat constructor; lia.
  - reflexivity.
  - reflexivity.
  - reflexivity.
  - discriminate.
Defined.

(** * Properties of the rest of the script *)

(** ** The two mappers *)

Example data_for_intervals_doctest :
  data_for_intervals [(0, 4); (4, 5); (5, 8)] [0; 5] = Ok [0; 0; 5] /\
  data_for_intervals [(0, 3); (3, 4); (4, 5); (5, 6)] [0; 3; 4; 5; 6]
  = Ok [0; 3; 4; 5] /\
  data_for_intervals [(0, 1); (1, 3); (3, 8); (8, 9)] [0; 3] = Ok [0; 0; 3; 3].
Proof. repeat split; reflexivity. Qed.

Lemma StronglySorted_le_nondecreasing (l : list nat) :
  StronglySorted le l -> nondecreasing l.
Proof.
  induction 1 as [|x l Hs IH Hx]; intros a b ka kb Hab Ha Hb.
  - destruct a; discriminate.
  - destruct a as [|a]; simpl in Ha.
    + inversion Ha; subst x. destruct b as [|b]; simpl in Hb.
      * inversion Hb. lia.
      * rewrite Forall_forall in Hx. apply Hx. eapply nth_error_In; eauto.
    + destruct b as [|b]; [lia|]. simpl in Hb.
      apply (IH a b ka kb); [lia|assumption|assumption].
Qed.

(** What the scan emits from any state: one index per remaining interval,
    each a position of [data_times], in non-decreasing order and not below
    the held index (or the cursor, when nothing is held yet). *)
Lemma data_indexes_loop_invariants (data_times : list Z) :
  forall rest i current_data indexes out,
    (forall c, current_data = Some c ->
               (c <= i)%nat /\ (c < length data_times)%nat) ->
    data_indexes_loop rest data_times i current_data indexes = Ok out ->
    exists new,
      out = indexes ++ new /\
      length new = length rest /\
      StronglySorted le new /\
      Forall (fun k =>
                (k < length data_times)%nat /\
                (match current_data with Some c => c | None => i end <= k)%nat)
             new.
Proof.
  induction rest as [|iv rest IH]; intros i cd indexes out Hcd H;
    cbn [data_indexes_loop] in H.
  - inversion H; subst. exists []. rewrite app_nil_r.
    repeat split; constructor.
  - destruct (item data_times i) as [t|e] eqn:Ht; [|discriminate].
    cbn [bind] in H. apply item_Ok_nth_error in Ht.
    assert (Hi : (i < length data_times)%nat)
      by (apply nth_error_Some; congruence).
    destruct (t =? fst iv).
    + apply IH in H.
      2:{ intros c Hc. inversion Hc; subst c.
          destruct (Nat.ltb_spec (i + 1) (length data_times)); lia. }
      destruct H as (new & -> & Hlen & Hs & Hall).
      exists (i :: new). rewrite <- app_assoc.
      split; [reflexivity|]. split; [simpl; lia|].
      split.
      * constructor; [assumption|].
        eapply Forall_impl; [|exact Hall]. cbn. intros k [_ Hk]. exact Hk.
      * constructor.
        -- split; [assumption|]. destruct cd as [c|]; [apply Hcd; auto|lia].
        -- eapply Forall_impl; [|exact Hall]. cbn. intros k [Hk1 Hk2].
           split; [assumption|].
           destruct cd as [c|]; [destruct (Hcd c eq_refl); lia|lia].
    + destruct cd as [c|]; [|discriminate].
      destruct (Hcd c eq_refl) as [Hci Hclen].
      apply IH in H; [|assumption].
      destruct H as (new & -> & Hlen & Hs & Hall).
      exists (c :: new). rewrite <- app_assoc.
      split; [reflexivity|]. split; [simpl; lia|].
      split.
      * constructor; [assumption|].
        eapply Forall_impl; [|exact Hall]. cbn. intros k [_ Hk]. exact Hk.
      * constructor; [split; [assumption|lia]|].
        eapply Forall_impl; [|exact Hall]. cbn. intros k [Hk1 Hk2]. auto.
Qed.

(** Whatever the intervals and change times, a list that
    [data_indexes_for_intervals] returns has one index per interval, every
    index is a valid position of [data_times], the indexes never decrease,
    and the first one is [0]. *)
Theorem data_indexes_in_range_and_nondecreasing :
  forall (intervals : list interval) (data_times : list Z)
         (indexes : list nat),
    data_indexes_for_intervals intervals data_times = Ok indexes ->
    length indexes = length intervals /\
    Forall (fun k => (k < length data_times)%nat) indexes /\
    nondecreasing indexes /\
    (intervals <> [] -> nth_error indexes 0 = Some 0%nat).
Proof.
  intros intervals data_times indexes H.
  unfold data_indexes_for_intervals in H.
  pose proof H as H'.
  apply data_indexes_loop_invariants in H; [|discriminate].
  destruct H as (new & -> & Hlen & Hs & Hall). cbn [app] in *.
  split; [assumption|].
  split; [eapply Forall_impl; [|exact Hall]; cbn; tauto|].
  split; [now apply StronglySorted_le_nondecreasing|].
  intros Hne. destruct intervals as [|iv rest]; [contradiction|].
  cbn [data_indexes_loop] in H'.
  destruct (item data_times 0) as [t|e] eqn:Ht; [|discriminate].
  cbn [bind] in H'. apply item_Ok_nth_error in Ht.
  assert (0 < length data_times)%nat by (apply nth_error_Some; congruence).
  destruct (t =? fst iv); [|discriminate].
  apply data_indexes_loop_invariants in H'.
  2:{ intros c Hc. inversion Hc; subst c.
      destruct (Nat.ltb_spec (0 + 1) (length data_times)); lia. }
  destruct H' as (new' & Hnew & _). rewrite Hnew. reflexivity.
Qed.

Lemma data_indexes_in_range_and_nondecreasing_witness :
  length [0; 0; 1; 1]%nat = length [(0, 1); (1, 3); (3, 8); (8, 9)] /\
  Forall (fun k => (k < length [0; 3])%nat) [0; 0; 1; 1]%nat /\
  nondecreasing [0; 0; 1; 1]%nat /\
  ([(0, 1); (1, 3); (3, 8); (8, 9)] <> [] ->
   nth_error [0; 0; 1; 1]%nat 0 = Some 0%nat).
Proof.
  apply (data_indexes_in_range_and_nondecreasing
           [(0, 1); (1, 3); (3, 8); (8, 9)] [0; 3]).
  reflexivity.
Defined.

Lemma for_each_lookup (data_times : list Z) (indexes : list nat)
  (values : list Z) :
  Forall2 (fun k v => nth_error data_times k = Some v) indexes values ->
  forall acc,
    for_each (fun k vals => v <- item data_times k ;; Ok (vals ++ [v]))
      indexes acc
    = Ok (acc ++ values).
Proof.
  induction 1 as [|k v indexes values Hkv Hall IH]; intros acc;
    cbn [for_each].
  - now rewrite app_nil_r.
  - rewrite (item_nth_error _ _ _ Hkv). cbn [bind].
    rewrite IH. now rewrite <- app_assoc.
Qed.

(** The two scans move in step: the time held by one is the change time at
    the index held by the other. *)
Lemma data_for_intervals_loop_related (data_times : list Z) :
  forall rest i held_index held_time indexes values,
    match held_index, held_time with
    | None, None => True
    | Some c, Some v => nth_error data_times c = Some v
    | _, _ => False
    end ->
    Forall2 (fun k v => nth_error data_times k = Some v) indexes values ->
    match data_indexes_loop rest data_times i held_index indexes with
    | Ok out =>
        exists out',
          data_for_intervals_loop rest data_times i held_time values = Ok out'
          /\ Forall2 (fun k v => nth_error data_times k = Some v) out out'
    | Raise e =>
        data_for_intervals_loop rest data_times i held_time values = Raise e
    end.
Proof.
  induction rest as [|iv rest IH]; intros i hi ht indexes values Hheld Hacc;
    cbn [data_indexes_loop data_for_intervals_loop].
  - eauto.
  - destruct (item data_times i) as [t|e] eqn:Ht; cbn [bind]; [|reflexivity].
    pose proof (item_Ok_nth_error _ _ _ Ht) as Hnth.
    destruct (t =? fst iv).
    + apply IH; [exact Hnth|].
      apply Forall2_app; [assumption|]. constructor; [assumption|constructor].
    + destruct hi as [c|], ht as [v|]; try contradiction; [|reflexivity].
      apply IH; [exact Hheld|].
      apply Forall2_app; [assumption|]. constructor; [assumption|constructor].
Qed.

(** [data_for_intervals] is [data_indexes_for_intervals] followed by the
    lookup of each index in [data_times]: it raises what the index mapper
    raises, and otherwise returns the change times at the indexes the index
    mapper returns. *)
Theorem data_for_intervals_is_lookup_of_indexes :
  forall (intervals : list interval) (data_times : list Z),
    data_for_intervals intervals data_times
    = (indexes <- data_indexes_for_intervals intervals data_times ;;
       for_each (fun k vals => v <- item data_times k ;; Ok (vals ++ [v]))
         indexes []).
Proof.
  intros intervals data_times.
  unfold data_for_intervals, data_indexes_for_intervals.
  pose proof (data_for_intervals_loop_related data_times intervals 0%nat
                None None [] [] I (Forall2_nil _)) as H.
  destruct (data_indexes_loop intervals data_times 0 None []) as [out|e];
    cbn [bind].
  - destruct H as (out' & Hrun & Hall). rewrite Hrun.
    now rewrite (for_each_lookup _ _ _ Hall).
  - exact H.
Qed.

(** ** [determine_simulation_times]: what it keeps *)

Lemma StronglySorted_snoc (l : list Z) (x : Z) :
  StronglySorted Z.lt l -> (forall t, In t l -> t < x) ->
  StronglySorted Z.lt (l ++ [x]).
Proof.
  induction 1 as [|y l Hs IH Hy]; intros Hlt; simpl.
  - repeat constructor.
  - constructor.
    + apply IH. intros t Ht. apply Hlt. now right.
    + apply Forall_app. split; [assumption|].
      constructor; [apply Hlt; now left|constructor].
Qed.

Lemma nth_error_0_snoc (l : list Z) (x y : Z) :
  nth_error l 0 = Some y -> nth_error (l ++ [x]) 0 = Some y.
Proof. destruct l; [discriminate|trivial]. Qed.

Section Merger.

Variables (time_step max_time : Z) (change_times : list Z).
Hypothesis step_positive : 0 < time_step.

(** The [if] of the loop body never raises, and what it appends is a change
    time strictly inside the window [(current_time, current_time + step)]. *)
Lemma insert_change_time_appends :
  forall current_time simulation_times idx next_change_time,
    In next_change_time change_times ->
    exists simulation_times' idx' next',
      insert_change_time time_step change_times current_time simulation_times
        idx next_change_time
      = Ok (simulation_times', idx', next') /\
      In next' change_times /\
      (simulation_times' = simulation_times \/
       simulation_times' = simulation_times ++ [next_change_time] /\
       current_time < next_change_time < current_time + time_step).
Proof.
  intros c st idx nct Hin. unfold insert_change_time.
  destruct (Z.gtb_spec nct c) as [Hgt|Hle]; cbn [andb]; [|eauto 10].
  destruct (Z.ltb_spec nct (c + time_step)) as [Hlt|Hge]; [|eauto 10].
  set (idx' := if (idx + 1 <? length change_times)%nat
               then (idx + 1)%nat else idx).
  destruct (Nat.leb_spec (length change_times) (idx' + 1)) as [Hlast|Hmore];
    cbn [negb].
  - exists (st ++ [nct]), idx', nct. split; [reflexivity|].
    split; [assumption|]. right. split; [reflexivity|lia].
  - destruct (nth_error change_times (idx' + 1)) as [t|] eqn:Ht.
    2:{ apply nth_error_None in Ht. lia. }
    rewrite (item_nth_error _ _ _ Ht). cbn [bind].
    exists (st ++ [nct]), idx', t. split; [reflexivity|].
    split; [eapply nth_error_In; eauto|]. right. split; [reflexivity|lia].
Qed.

Lemma determine_simulation_times_loop_keeps :
  forall fuel current_time simulation_times idx next_change_time,
    (Z.to_nat (max_time - current_time) < fuel)%nat ->
    In next_change_time change_times ->
    merger_invariant time_step max_time change_times current_time
      simulation_times ->
    exists times,
      determine_simulation_times_loop fuel time_step max_time change_times
        current_time simulation_times idx next_change_time
      = Some (Ok times) /\
      merger_result time_step max_time change_times times.
Proof.
  induction fuel as [|fuel IH]; intros c st idx nct Hfuel Hnct Inv; [lia|].
  destruct Inv as (Hs & H0 & Hrange & Hcmax & (m & Hm & Hc) & Hmult & Hkind).
  cbn [determine_simulation_times_loop].
  destruct (Z.ltb_spec c max_time) as [Hlt|Hge].
  - destruct (insert_change_time_appends c st idx nct Hnct)
      as (st' & idx' & nct' & Hins & Hnct' & Hst').
    rewrite Hins.
    assert (Hs' : StronglySorted Z.lt st' /\
                  nth_error st' 0 = Some 0 /\
                  (forall t, In t st' -> 0 <= t < c + time_step) /\
                  (forall t, In t st -> In t st') /\
                  (forall t, In t st' ->
                     (exists k, 0 <= k /\ t = k * time_step) \/
                     In t change_times)).
    { destruct Hst' as [->|[-> Hwin]].
      - repeat split; auto; try (apply Hrange in H; lia).
      - split; [apply StronglySorted_snoc; [assumption|]|].
        { intros t Ht. apply Hrange in Ht. lia. }
        split; [now apply nth_error_0_snoc|].
        split.
        { intros t Ht. apply in_app_or in Ht.
          destruct Ht as [Ht|[<-|[]]]; [apply Hrange in Ht; lia|lia]. }
        split; [intros t Ht; apply in_or_app; now left|].
        intros t Ht. apply in_app_or in Ht.
        destruct Ht as [Ht|[<-|[]]]; [now apply Hkind|now right]. }
    destruct Hs' as (Hs' & H0' & Hrange' & Hsub & Hkind').
    destruct (Z.gtb_spec (c + time_step) max_time) as [Hover|Hfits].
    + (* break *)
      exists st'. split; [reflexivity|].
      split; [assumption|]. split; [assumption|]. split.
      * intros k Hk Hle. apply Hsub. apply Hmult; [assumption|].
        assert (k <= m) by nia. nia.
      * intros t Ht. split; [now apply Hkind'|].
        specialize (Hrange' _ Ht). lia.
    + (* the next periodic checkpoint is appended *)
      apply IH; [lia|assumption|].
      split; [apply StronglySorted_snoc; [assumption|]|].
      { intros t Ht. specialize (Hrange' _ Ht). lia. }
      split; [now apply nth_error_0_snoc|].
      split.
      { intros t Ht. apply in_app_or in Ht.
        destruct Ht as [Ht|[<-|[]]]; [specialize (Hrange' _ Ht); lia|lia]. }
      split; [lia|].
      split; [exists (m + 1); split; [lia|nia]|].
      split.
      * intros k Hk Hle. apply in_or_app.
        destruct (Z.eq_dec k (m + 1)) as [->|Hne].
        -- right. left. nia.
        -- left. apply Hsub. apply Hmult; [assumption|].
           assert (k <= m) by nia. nia.
      * intros t Ht. apply in_app_or in Ht.
        destruct Ht as [Ht|[<-|[]]]; [now apply Hkind'|].
        left. exists (m + 1). split; [lia|nia].
  - (* the loop condition fails *)
    exists st. split; [reflexivity|].
    split; [assumption|]. split; [assumption|]. split.
    + intros k Hk Hle. apply Hmult; [assumption|lia].
    + intros t Ht. split; [now apply Hkind|].
      specialize (Hrange _ Ht). lia.
Qed.

End Merger.

(** With fewer than two change times [determine_simulation_times] raises
    [IndexError] before its loop. With a positive step, a horizon that is
    not negative and at least two change times it returns, within
    [max_time + 1] iterations, a strictly ascending list that starts at
    [0], holds every multiple of the step up to [max_time], holds nothing
    but such multiples and change times, and stays below
    [max_time + time_step]. *)
Theorem determine_simulation_times_result :
  forall (fuel : nat) (time_step max_time : Z) (change_times : list Z),
    0 < time_step ->
    0 <= max_time ->
    (Z.to_nat max_time < fuel)%nat ->
    ((length change_times < 2)%nat ->
     determine_simulation_times fuel time_step max_time change_times
     = Some (Raise IndexError)) /\
    ((2 <= length change_times)%nat ->
     exists times,
       determine_simulation_times fuel time_step max_time change_times
       = Some (Ok times) /\
       merger_result time_step max_time change_times times).
Proof.
  intros fuel step max_time ct Hstep Hmax Hfuel.
  unfold determine_simulation_times. split; intros Hlen.
  - destruct (nth_error ct (0 + 1)) as [t|] eqn:Ht.
    + assert (0 + 1 < length ct)%nat by (apply nth_error_Some; congruence).
      lia.
    + unfold item. rewrite Ht. reflexivity.
  - destruct (nth_error ct (0 + 1)) as [t|] eqn:Ht.
    2:{ apply nth_error_None in Ht. lia. }
    rewrite (item_nth_error _ _ _ Ht).
    apply determine_simulation_times_loop_keeps.
    + assumption.
    + rewrite Z.sub_0_r. assumption.
    + eapply nth_error_In; eauto.
    + split; [repeat constructor|]. split; [reflexivity|].
      split; [intros t' [<-|[]]; lia|]. split; [assumption|].
      split; [exists 0; lia|]. split.
      * intros k Hk Hle. left. nia.
      * intros t' [<-|[]]. left. exists 0. lia.
Qed.

Lemma determine_simulation_times_result_witness :
  ((length [0; 3; 5] < 2)%nat ->
   determine_simulation_times 10 2 9 [0; 3; 5] = Some (Raise IndexError)) /\
  ((2 <= length [0; 3; 5])%nat ->
   exists times,
     determine_simulation_times 10 2 9 [0; 3; 5] = Some (Ok times) /\
     merger_result 2 9 [0; 3; 5] times).
Proof.
  apply (determine_simulation_times_result 10 2 9 [0; 3; 5]); simpl; lia.
Defined.

(** ** Decimal strings: value and order *)

Lemma len_String (c : ascii) (s : string) : len (String c s) = len s + 1.
Proof. unfold len. cbn [String.length]. lia. Qed.

Lemma len_nonneg (s : string) : 0 <= len s.
Proof. unfold len. lia. Qed.

Lemma len_append (s1 s2 : string) : len (s1 ++ s2) = len s1 + len s2.
Proof.
  induction s1 as [|c s1 IH]; cbn [append].
  - unfold len at 2. simpl. lia.
  - rewrite !len_String, IH. lia.
Qed.

Lemma int_of_digits_from_linear (s : string) :
  forall acc,
    int_of_digits_from acc s = acc * 10 ^ len s + int_of_digits s.
Proof.
  unfold int_of_digits.
  induction s as [|c s IH]; intros acc; cbn [int_of_digits_from].
  - unfold len. simpl. lia.
  - rewrite IH. rewrite (IH (10 * 0 + _)).
    rewrite len_String, Z.pow_add_r by (try apply len_nonneg; lia).
    ring.
Qed.

Lemma is_digit_range (c : ascii) :
  is_digit c = true -> 0 <= Z.of_N (N_of_ascii c) - 48 <= 9.
Proof.
  unfold is_digit. rewrite andb_true_iff, !N.leb_le. lia.
Qed.

Lemma int_of_digits_bounds (s : string) :
  all_digits s = true -> 0 <= int_of_digits s < 10 ^ len s.
Proof.
  induction s as [|c s IH]; cbn [all_digits]; intros H.
  - unfold int_of_digits, len. simpl. lia.
  - apply andb_true_iff in H. destruct H as [Hc Hs].
    specialize (IH Hs). apply is_digit_range in Hc.
    unfold int_of_digits. cbn [int_of_digits_from].
    rewrite int_of_digits_from_linear, len_String.
    rewrite Z.pow_add_r by (try apply len_nonneg; lia).
    nia.
Qed.

(** Digit strings of equal length compare as the numbers they denote. *)
Lemma compare_digits (s1 : string) :
  forall s2,
    all_digits s1 = true -> all_digits s2 = true -> len s1 = len s2 ->
    String.compare s1 s2 = (int_of_digits s1 ?= int_of_digits s2).
Proof.
  induction s1 as [|c1 s1 IH]; intros [|c2 s2] H1 H2 Hlen;
    try (rewrite ?len_String in Hlen; unfold len in Hlen; simpl in Hlen; lia).
  - reflexivity.
  - cbn [all_digits] in H1, H2.
    apply andb_true_iff in H1, H2. destruct H1 as [Hc1 H1], H2 as [Hc2 H2].
    rewrite !len_String in Hlen. assert (Hlen' : len s1 = len s2) by lia.
    pose proof (int_of_digits_bounds _ H1) as B1.
    pose proof (int_of_digits_bounds _ H2) as B2.
    apply is_digit_range in Hc1, Hc2.
    cbn [String.compare]. unfold Ascii.compare.
    unfold int_of_digits at 1 2. cbn [int_of_digits_from].
    rewrite !int_of_digits_from_linear. rewrite <- Hlen' in *.
    destruct (N.compare_spec (N_of_ascii c1) (N_of_ascii c2)) as [E|L|G].
    + rewrite E. rewrite (IH s2 H1 H2 Hlen').
      symmetry. destruct (Z.compare_spec (int_of_digits s1) (int_of_digits s2));
        [apply Z.compare_eq_iff|apply Z.compare_lt_iff|apply Z.compare_gt_iff];
        lia.
    + symmetry. apply Z.compare_lt_iff.
      assert (Z.of_N (N_of_ascii c1) + 1 <= Z.of_N (N_of_ascii c2)) by lia.
      nia.
    + symmetry. apply Z.compare_gt_iff.
      assert (Z.of_N (N_of_ascii c2) + 1 <= Z.of_N (N_of_ascii c1)) by lia.
      nia.
Qed.

(** Replaces the code of a literal character by its number. *)
Ltac char_codes :=
  repeat match goal with
         | |- context [N_of_ascii ?c] =>
             let v := eval vm_compute in (N_of_ascii c) in
             change (N_of_ascii c) with v
         | H : context [N_of_ascii ?c] |- _ =>
             let v := eval vm_compute in (N_of_ascii c) in
             change (N_of_ascii c) with v in H
         end.

Lemma string_of_uint_digits (d : Decimal.uint) :
  all_digits (NilEmpty.string_of_uint d) = true.
Proof. induction d; cbn; auto. Qed.

Lemma int_of_digits_from_uint (d : Decimal.uint) :
  forall acc : positive,
    int_of_digits_from (Z.pos acc) (NilEmpty.string_of_uint d)
    = Z.pos (Pos.of_uint_acc d acc).
Proof.
  induction d; intros acc;
    cbn [NilEmpty.string_of_uint int_of_digits_from Pos.of_uint_acc];
    try reflexivity;
    match goal with
    | |- int_of_digits_from ?x _ = Z.pos (Pos.of_uint_acc _ ?y) =>
        replace x with (Z.pos y) by (char_codes; lia)
    end; apply IHd.
Qed.

Lemma int_of_digits_uint (d : Decimal.uint) :
  int_of_digits (NilEmpty.string_of_uint d) = Z.of_N (Pos.of_uint d).
Proof.
  unfold int_of_digits.
  induction d; cbn [NilEmpty.string_of_uint int_of_digits_from Pos.of_uint];
    try reflexivity; try exact IHd;
    match goal with
    | |- int_of_digits_from ?x _ = Z.of_N (N.pos (Pos.of_uint_acc _ ?y)) =>
        replace x with (Z.pos y) by (char_codes; lia)
    end; apply int_of_digits_from_uint.
Qed.

(** [str] of a positive number: its digits, most significant first, without
    a leading zero. *)
Lemma str_pos (p : positive) :
  str (Z.pos p) = NilEmpty.string_of_uint (Pos.to_uint p).
Proof.
  unfold str. cbn [Z.to_int NilZero.string_of_int].
  unfold NilZero.string_of_uint.
  pose proof (DecimalPos.Unsigned.to_uint_nonnil p).
  destruct (Pos.to_uint p); [contradiction|reflexivity..].
Qed.

Lemma str_nonneg_digits (number : Z) :
  0 <= number ->
  all_digits (str number) = true /\ int_of_digits (str number) = number.
Proof.
  intros H. destruct number as [|p|p]; [split; reflexivity| |lia].
  rewrite str_pos. split; [apply string_of_uint_digits|].
  rewrite int_of_digits_uint, DecimalPos.Unsigned.of_to. reflexivity.
Qed.

Lemma to_uint_no_leading_zero (p : positive) (d : Decimal.uint) :
  Pos.to_uint p <> Decimal.D0 d.
Proof.
  intros E.
  pose proof (DecimalPos.Unsigned.to_of (Pos.to_uint p)) as H.
  rewrite DecimalPos.Unsigned.of_to in H. cbn [N.to_uint] in H.
  pose proof (DecimalFacts.unorm_0 (Pos.to_uint p)) as Hz.
  pose proof (DecimalPos.Unsigned.to_uint_nonzero p) as Hnz.
  unfold Decimal.unorm in H.
  destruct (Decimal.nzhead (Pos.to_uint p)) eqn:Hh;
    try (rewrite E in H; discriminate).
  - apply Hnz. now rewrite H.
  - eapply DecimalFacts.nzhead_nonzero. exact Hh.
Qed.

(** The digit count of a positive number: [10 ^ (len - 1) <= number]. *)
Lemma str_pos_lower_bound (p : positive) :
  10 ^ (len (str (Z.pos p)) - 1) <= Z.pos p.
Proof.
  pose proof (proj2 (str_nonneg_digits (Z.pos p) ltac:(lia))) as Hval.
  pose proof (to_uint_no_leading_zero p) as Hlead.
  rewrite str_pos in *.
  pose proof (string_of_uint_digits (Pos.to_uint p)) as Hdig.
  destruct (Pos.to_uint p) as [|d|d|d|d|d|d|d|d|d|d];
    [cbn in Hval; lia|exfalso; eapply Hlead; reflexivity|..];
    cbn [NilEmpty.string_of_uint] in *;
    cbn [all_digits] in Hdig; apply andb_true_iff in Hdig;
    destruct Hdig as [_ Hdig];
    pose proof (int_of_digits_bounds _ Hdig) as B;
    unfold int_of_digits in Hval; cbn [int_of_digits_from] in Hval;
    rewrite int_of_digits_from_linear in Hval;
    rewrite len_String;
    replace (len (NilEmpty.string_of_uint d) + 1 - 1)
      with (len (NilEmpty.string_of_uint d)) by lia;
    char_codes;
    pose proof (Z.pow_pos_nonneg 10 (len (NilEmpty.string_of_uint d))
                  ltac:(lia) (len_nonneg _));
    nia.
Qed.

Lemma zeros_digits (n : nat) :
  all_digits (zeros n) = true /\ len (zeros n) = Z.of_nat n /\
  forall s, int_of_digits (zeros n ++ s) = int_of_digits s.
Proof.
  unfold int_of_digits.
  induction n as [|n (IH1 & IH2 & IH3)]; cbn [zeros append].
  - repeat split.
  - split; [cbn [all_digits]; rewrite IH1; reflexivity|].
    split; [rewrite len_String, IH2; lia|].
    intros s. cbn [int_of_digits_from]. apply IH3.
Qed.

Lemma all_digits_append (s1 s2 : string) :
  all_digits (s1 ++ s2) = all_digits s1 && all_digits s2.
Proof.
  induction s1 as [|c s1 IH]; cbn [append all_digits]; [reflexivity|].
  rewrite IH. now rewrite andb_assoc.
Qed.

Lemma digit_is_no_sign (c : ascii) :
  is_digit c = true -> (Ascii.eqb c "+" || Ascii.eqb c "-")%bool = false.
Proof.
  intros H. apply is_digit_range in H.
  destruct (Ascii.eqb_spec c "+") as [->|_]; [char_codes; lia|].
  destruct (Ascii.eqb_spec c "-") as [->|_]; [char_codes; lia|].
  reflexivity.
Qed.

(** [zfill] never shortens: the result is as long as the longer of the
    string and the width, also behind a sign. *)
Lemma zfill_length (s : string) (width : Z) :
  len (zfill s width) = Z.max width (len s).
Proof.
  unfold zfill. fold (len s).
  destruct (zeros_digits (Z.to_nat (width - len s))) as (_ & Hlen & _).
  destruct s as [|c rest].
  - rewrite Hlen. unfold len. simpl. lia.
  - destruct (Ascii.eqb c "+" || Ascii.eqb c "-")%bool.
    + rewrite len_String, len_append, Hlen, len_String. lia.
    + rewrite len_append, Hlen, len_String. lia.
Qed.

Lemma format_order_nonneg (number width : Z) :
  0 <= number ->
  format_order number width
  = (zeros (Z.to_nat (width - len (str number))) ++ str number)%string.
Proof.
  intros H. destruct (str_nonneg_digits number H) as [Hdig _].
  unfold format_order, zfill. fold (len (str number)).
  destruct (str number) as [|c rest] eqn:E.
  - destruct number; discriminate || (rewrite str_pos in E;
      pose proof (DecimalPos.Unsigned.to_uint_nonnil p);
      destruct (Pos.to_uint p); [contradiction|discriminate..]) || lia.
  - cbn [all_digits] in Hdig. apply andb_true_iff in Hdig.
    now rewrite (digit_is_no_sign c (proj1 Hdig)).
Qed.

Lemma format_order_digits (number width : Z) :
  0 <= number ->
  all_digits (format_order number width) = true /\
  int_of_digits (format_order number width) = number.
Proof.
  intros H. rewrite (format_order_nonneg number width H).
  destruct (str_nonneg_digits number H) as [Hdig Hval].
  destruct (zeros_digits (Z.to_nat (width - len (str number))))
    as (Hz & _ & Hzval).
  split; [now rewrite all_digits_append, Hz, Hdig|now rewrite Hzval].
Qed.

(** For a number that is not negative, [format_order] pads without
    truncating and without changing the number: the result has
    [max(zeros, len(str(number)))] characters, all of them digits, and
    denotes [number]. *)
Theorem format_order_keeps_the_number :
  forall number zeros : Z,
    0 <= number ->
    len (format_order number zeros) = Z.max zeros (len (str number)) /\
    all_digits (format_order number zeros) = true /\
    int_of_digits (format_order number zeros) = number.
Proof.
  intros number width H.
  split; [apply zfill_length|].
  now apply format_order_digits.
Qed.

Lemma format_order_keeps_the_number_witness :
  len (format_order 26 3) = Z.max 3 (len (str 26)) /\
  all_digits (format_order 26 3) = true /\
  int_of_digits (format_order 26 3) = 26.
Proof. apply (format_order_keeps_the_number 26 3). lia. Defined.

Lemma format_order_compares_as_numbers_aux (a b width : Z) :
  0 <= a -> 0 <= b -> len (str a) <= width -> len (str b) <= width ->
  String.compare (format_order a width) (format_order b width) = (a ?= b).
Proof.
  intros Ha Hb Hwa Hwb.
  pose proof (zfill_length (str a) width) as La.
  pose proof (zfill_length (str b) width) as Lb.
  fold (format_order a width) in La. fold (format_order b width) in Lb.
  rewrite (format_order_nonneg a width Ha), (format_order_nonneg b width Hb)
    in *.
  destruct (str_nonneg_digits a Ha) as [Da Va].
  destruct (str_nonneg_digits b Hb) as [Db Vb].
  destruct (zeros_digits (Z.to_nat (width - len (str a)))) as (Za & _ & Ia).
  destruct (zeros_digits (Z.to_nat (width - len (str b)))) as (Zb & _ & Ib).
  rewrite compare_digits.
  - now rewrite Ia, Ib, Va, Vb.
  - now rewrite all_digits_append, Za, Da.
  - now rewrite all_digits_append, Zb, Db.
  - lia.
Qed.

(** Padded to a common width that holds both, two numbers that are not
    negative compare as strings the way they compare as numbers: the padded
    strings are in lexicographic order exactly when the numbers are in
    numeric order. *)
Theorem format_order_compares_as_numbers :
  forall a b zeros : Z,
    0 <= a -> 0 <= b ->
    len (str a) <= zeros -> len (str b) <= zeros ->
    String.compare (format_order a zeros) (format_order b zeros) = (a ?= b) /\
    (String.ltb (format_order a zeros) (format_order b zeros) = true
     <-> a < b) /\
    (format_order a zeros = format_order b zeros <-> a = b).
Proof.
  intros a b width Ha Hb Hwa Hwb.
  pose proof (format_order_compares_as_numbers_aux a b width Ha Hb Hwa Hwb)
    as Hcmp.
  split; [exact Hcmp|]. split.
  - unfold String.ltb. rewrite Hcmp.
    destruct (Z.compare_spec a b); split; intros; try lia; try discriminate;
      reflexivity.
  - split; [|intros ->; reflexivity]. intros E.
    apply Z.compare_eq_iff. rewrite <- Hcmp.
    rewrite E. clear. induction (format_order b width) as [|c s IH];
      cbn [String.compare]; [reflexivity|].
    unfold Ascii.compare. now rewrite N.compare_refl.
Qed.

Lemma format_order_compares_as_numbers_witness :
  String.compare (format_order 26 3) (format_order 150 3) = (26 ?= 150) /\
  (String.ltb (format_order 26 3) (format_order 150 3) = true <-> 26 < 150) /\
  (format_order 26 3 = format_order 150 3 <-> 26 = 150).
Proof.
  apply (format_order_compares_as_numbers 26 150 3); vm_compute; congruence.
Defined.

(** [len(str(number))] is the decimal digit count of a positive number. *)
Lemma str_length_is_digit_count (number : Z) :
  0 < number ->
  10 ^ (len (str number) - 1) <= number < 10 ^ len (str number).
Proof.
  intros H. destruct number as [|p|p]; try lia.
  split; [apply str_pos_lower_bound|].
  destruct (str_nonneg_digits (Z.pos p) ltac:(lia)) as [Hdig Hval].
  pose proof (int_of_digits_bounds _ Hdig). lia.
Qed.

(** ** Output Namer: when the width is right *)

Lemma str_nonempty (number : Z) : 1 <= len (str number).
Proof.
  destruct number as [|p|p].
  - vm_compute. congruence.
  - rewrite str_pos. pose proof (DecimalPos.Unsigned.to_uint_nonnil p).
    destruct (Pos.to_uint p); [contradiction|..];
      cbn [NilEmpty.string_of_uint]; rewrite len_String;
      pose proof (len_nonneg (NilEmpty.string_of_uint u)); lia.
  - unfold str. cbn [Z.to_int NilZero.string_of_int].
    rewrite len_String.
    pose proof (len_nonneg (NilZero.string_of_uint (Pos.to_uint p))). lia.
Qed.

Lemma str_length_monotone (a b : Z) :
  0 <= a <= b -> len (str a) <= len (str b).
Proof.
  intros [Ha Hab].
  destruct (Z.eq_dec a 0) as [->|Hne].
  - replace (len (str 0)) with 1 by reflexivity. apply str_nonempty.
  - pose proof (str_length_is_digit_count a ltac:(lia)) as [La _].
    pose proof (str_length_is_digit_count b ltac:(lia)) as [_ Ub].
    assert (Hpow : 10 ^ (len (str a) - 1) < 10 ^ len (str b)) by lia.
    apply Z.pow_lt_mono_r_iff in Hpow; [lia|lia|apply len_nonneg].
Qed.

(** Where the floating-point logarithm is the integer logarithm,
    [number_lenght] is the digit count. *)
Theorem number_lenght_is_digit_count_when_log_exact :
  forall (int_log10 : Z -> Z) (number : Z),
    0 < number ->
    10 ^ int_log10 number <= number < 10 ^ (int_log10 number + 1) ->
    number_lenght int_log10 number = Ok (len (str number)).
Proof.
  intros int_log10 number Hpos [Hlow Hhigh].
  unfold number_lenght. destruct (Z.leb_spec number 0); [lia|].
  f_equal.
  pose proof (str_length_is_digit_count number Hpos) as [Hl Hh].
  pose proof (str_nonempty number) as Hne.
  assert (Hk : 0 <= int_log10 number).
  { destruct (Z.le_gt_cases 0 (int_log10 number)); [assumption|].
    assert (int_log10 number + 1 <= 0) by lia.
    destruct (Z.eq_dec (int_log10 number + 1) 0) as [E|E].
    - rewrite E in Hhigh. simpl in Hhigh. lia.
    - rewrite Z.pow_neg_r in Hhigh by lia. lia. }
  assert (H1 : 10 ^ int_log10 number < 10 ^ len (str number)) by lia.
  assert (H2 : 10 ^ (len (str number) - 1) < 10 ^ (int_log10 number + 1))
    by lia.
  apply Z.pow_lt_mono_r_iff in H1; [|lia|lia].
  apply Z.pow_lt_mono_r_iff in H2; [|lia|lia]. lia.
Qed.

Lemma number_lenght_is_digit_count_when_log_exact_witness :
  number_lenght (fun _ => 2) 150 = Ok (len (str 150)).
Proof.
  apply (number_lenght_is_digit_count_when_log_exact (fun _ => 2) 150).
  - lia.
  - vm_compute. split; congruence.
Defined.

Lemma compare_common_prefix (p s1 s2 : string) :
  String.compare (p ++ s1) (p ++ s2) = String.compare s1 s2.
Proof.
  induction p as [|c p IH]; cbn [append String.compare]; [reflexivity|].
  unfold Ascii.compare. now rewrite N.compare_refl.
Qed.

(** What [output_names_for_intervals] returns and when it raises: no name
    can be made for an empty interval list ([IndexError] on
    [intervals[-1]]) or when the final end time is not positive
    ([ValueError] from [log]); otherwise there is one name per interval, the
    basename, an underscore and the end time padded to the computed
    width. *)
Lemma output_names_for_intervals_cases :
  forall (int_log10 : Z -> Z) (basename : string) (intervals : list interval),
    match intervals with
    | [] =>
        output_names_for_intervals int_log10 basename intervals
        = Raise IndexError
    | _ :: _ =>
        let maximum := snd (last intervals (0, 0)) in
        if maximum <=? 0 then
          output_names_for_intervals int_log10 basename intervals
          = Raise ValueError
        else
          output_names_for_intervals int_log10 basename intervals
          = Ok (map (fun iv =>
                       (basename ++ "_"
                        ++ format_order (snd iv) (int_log10 maximum + 1))%string)
                  intervals)
    end.
Proof.
  intros int_log10 basename intervals.
  destruct intervals as [|iv rest]; [reflexivity|].
  cbv zeta. unfold output_names_for_intervals.
  rewrite (getitem_last (iv :: rest) (0, 0)) by discriminate.
  cbn [bind]. unfold number_lenght.
  destruct (snd (last (iv :: rest) (0, 0)) <=? 0); [reflexivity|].
  cbn [bind]. now rewrite for_each_append_map.
Qed.

Lemma StronglySorted_le_last (l : list Z) (d : Z) :
  StronglySorted Z.lt l -> forall x, In x l -> x <= last l d.
Proof.
  induction 1 as [|y l Hs IH Hy]; intros x Hin; [contradiction|].
  destruct l as [|z l]; [destruct Hin as [<-|[]]; simpl; lia|].
  change (last (y :: z :: l) d) with (last (z :: l) d).
  destruct Hin as [<-|Hin]; [|now apply IH].
  rewrite Forall_forall in Hy.
  assert (y < z) by (apply Hy; now left).
  specialize (IH z (or_introl eq_refl)). lia.
Qed.

Lemma last_map_snd (l : list interval) :
  last (map snd l) 0 = snd (last l (0, 0)).
Proof.
  induction l as [|x l IH]; [reflexivity|].
  destruct l as [|y l]; [reflexivity|]. exact IH.
Qed.

Lemma names_sorted (basename : string) (width : Z) (intervals : list interval) :
  StronglySorted Z.lt (map snd intervals) ->
  Forall (fun iv => 0 <= snd iv /\ len (str (snd iv)) <= width) intervals ->
  StronglySorted (fun x y => String.ltb x y = true)
    (map (fun iv => (basename ++ "_" ++ format_order (snd iv) width)%string)
       intervals).
Proof.
  induction intervals as [|iv rest IH]; intros Hs Hall; cbn [map];
    [constructor|].
  inversion Hs as [|? ? Hs' Hlt]; subst.
  inversion Hall as [|? ? [Hiv Hw] Hall']; subst.
  constructor; [now apply IH|].
  apply Forall_forall. intros name Hin. apply in_map_iff in Hin.
  destruct Hin as (iv' & <- & Hin').
  rewrite Forall_forall in Hlt, Hall'.
  destruct (Hall' _ Hin') as [Hiv' Hw'].
  assert (Hord : snd iv < snd iv') by (apply Hlt; now apply in_map).
  unfold String.ltb.
  rewrite compare_common_prefix.
  change ("_" ++ format_order (snd iv) width)%string
    with (String "_" (format_order (snd iv) width)).
  change ("_" ++ format_order (snd iv') width)%string
    with (String "_" (format_order (snd iv') width)).
  cbn [String.compare]. unfold Ascii.compare. rewrite N.compare_refl.
  rewrite format_order_compares_as_numbers_aux by assumption.
  now apply Z.compare_lt_iff in Hord as ->.
Qed.

(** For intervals with positive, ascending end times, if the computed width
    holds the digits of the final end time, [output_names_for_intervals]
    returns one name per interval, the names are in strictly ascending
    lexicographic order, and each name is the basename, an underscore and a
    digit string that denotes the interval's end time. *)
Theorem output_names_sorted_when_width_fits :
  forall (int_log10 : Z -> Z) (basename : string) (intervals : list interval),
    intervals <> [] ->
    Forall (fun iv => 0 < snd iv) intervals ->
    StronglySorted Z.lt (map snd intervals) ->
    len (str (snd (last intervals (0, 0))))
    <= int_log10 (snd (last intervals (0, 0))) + 1 ->
    exists names,
      output_names_for_intervals int_log10 basename intervals = Ok names /\
      StronglySorted (fun x y => String.ltb x y = true) names /\
      Forall2 (fun iv name =>
                 exists digits,
                   name = (basename ++ "_" ++ digits)%string /\
                   all_digits digits = true /\
                   int_of_digits digits = snd iv)
              intervals names.
Proof.
  intros int_log10 basename intervals Hne Hpos Hs Hwidth.
  pose proof (output_names_for_intervals_cases int_log10 basename intervals)
    as Hcases.
  destruct intervals as [|iv rest] eqn:E; [contradiction|]. rewrite <- E in *.
  cbv zeta in Hcases.
  assert (Hmax : 0 < snd (last intervals (0, 0))).
  { rewrite Forall_forall in Hpos. apply Hpos. apply last_in.
    rewrite E. discriminate. }
  destruct (Z.leb_spec (snd (last intervals (0, 0))) 0); [lia|].
  eexists. split; [exact Hcases|]. split.
  - apply names_sorted; [assumption|].
    apply Forall_forall. intros iv' Hin.
    rewrite Forall_forall in Hpos. specialize (Hpos _ Hin).
    split; [lia|].
    assert (snd iv' <= snd (last intervals (0, 0))).
    { rewrite <- last_map_snd. apply StronglySorted_le_last; [assumption|].
      now apply in_map. }
    pose proof (str_length_monotone (snd iv') (snd (last intervals (0, 0)))
                  ltac:(lia)). lia.
  - clear Hcases Hs E. induction intervals as [|iv' rest' IH]; cbn [map];
      constructor.
    + inversion Hpos as [|? ? Hiv _]; subst.
      destruct (format_order_digits (snd iv')
                  (int_log10 (snd (last (iv' :: rest') (0, 0))) + 1)
                  ltac:(lia)) as (Hd & Hv).
      eexists. split; [reflexivity|]. split; assumption.
    + inversion Hpos as [|? ? Hiv Hpos']; subst.
      destruct rest' as [|iv'' rest'']; [constructor|].
      change (last (iv' :: iv'' :: rest'') (0, 0))
        with (last (iv'' :: rest'') (0, 0)) in *.
      apply IH; try assumption; discriminate.
Qed.

Lemma output_names_sorted_when_width_fits_witness :
  exists names,
    output_names_for_intervals (fun _ => 2) "fire_spread"
      [(0, 1); (1, 26); (26, 150)] = Ok names /\
    StronglySorted (fun x y => String.ltb x y = true) names /\
    Forall2 (fun iv name =>
               exists digits,
                 name = ("fire_spread" ++ "_" ++ digits)%string /\
                 all_digits digits = true /\
                 int_of_digits digits = snd iv)
            [(0, 1); (1, 26); (26, 150)] names.
Proof.
  apply (output_names_sorted_when_width_fits (fun _ => 2) "fire_spread"
           [(0, 1); (1, 26); (26, 150)]).
  - discriminate.
  - repeat constructor.
  - simpl. repeat constructor; lia.
  - vm_compute. congruence.
Defined.

(** ** The parameters handed to [r.ros] *)

Lemma dict_get_set_same (key value : string) (d : dict) :
  dict_get key (dict_set key value d) = Some value.
Proof.
  induction d as [|[k v] d IH]; cbn [dict_set dict_get].
  - now rewrite String.eqb_refl.
  - destruct (String.eqb k key) eqn:E; cbn [dict_get].
    + now rewrite String.eqb_refl.
    + now rewrite E.
Qed.

Lemma dict_get_set_other (key key' value : string) (d : dict) :
  key <> key' ->
  dict_get key' (dict_set key value d) = dict_get key' d.
Proof.
  intros Hne. induction d as [|[k v] d IH]; cbn [dict_set dict_get].
  - destruct (String.eqb_spec key key'); [contradiction|reflexivity].
  - destruct (String.eqb_spec k key) as [->|Hk]; cbn [dict_get].
    + destruct (String.eqb_spec key key'); [contradiction|reflexivity].
    + now rewrite IH.
Qed.

(** One optional vector: a given vector is read at [data_indexes[index]] and
    stored under its key, anything else leaves the dict alone. The only
    exception it can raise is [IndexError]. *)
Lemma set_if_present_cases (key : string) (vector : option (list string))
  (data_indexes : list nat) (index : nat) (d : dict) :
  match set_if_present key vector data_indexes index d with
  | Ok d' =>
      if given vector then
        exists di v,
          nth_error data_indexes index = Some di /\
          vector_item vector di = Some v /\
          d' = dict_set key v d
      else d' = d
  | Raise e => e = IndexError /\ given vector = true
  end.
Proof.
  unfold set_if_present.
  destruct vector as [[|x xs]|]; cbn [given]; try reflexivity.
  unfold item.
  destruct (nth_error data_indexes index) as [di|]; cbn [bind]; [|auto].
  destruct (nth_error (x :: xs) di) as [v|] eqn:Hv; cbn [bind]; [|auto].
  exists di, v. auto.
Qed.

Lemma select_parameters_lookup :
  forall (params : FireSimulationParams) (data_indexes : list nat)
         (index : nat) (rros_params selected : dict),
    select_parameters params data_indexes index rros_params = Ok selected ->
    exists di,
      nth_error data_indexes index = Some di /\
      dict_get "moisture_live" selected = nth_error (moistures_live params) di /\
      nth_error (moistures_live params) di <> None /\
      (forall key vector,
         In (key, vector) (optional_vectors params) ->
         if given vector
         then dict_get key selected = vector_item vector di /\
              vector_item vector di <> None
         else dict_get key selected = dict_get key rros_params) /\
      (forall key,
         key <> "moisture_live"%string ->
         ~ In key (map fst (optional_vectors params)) ->
         dict_get key selected = dict_get key rros_params).
Proof.
  intros params data_indexes index d p H.
  unfold select_parameters in H. unfold item in H.
  destruct (nth_error data_indexes index) as [di|] eqn:Hdi; [|discriminate].
  cbn [bind] in H.
  destruct (nth_error (moistures_live params) di) as [live|] eqn:Hlive;
    [|discriminate].
  cbn [bind] in H.
  set (d0 := dict_set "moisture_live" live d) in H.
  pose proof (set_if_present_cases "moisture_1h" (moistures_1h params)
                data_indexes index d0) as C1.
  destruct (set_if_present "moisture_1h" _ _ _ d0) as [d1|]; [|discriminate].
  cbn [bind] in H.
  pose proof (set_if_present_cases "moisture_10h" (moistures_10h params)
                data_indexes index d1) as C2.
  destruct (set_if_present "moisture_10h" _ _ _ d1) as [d2|]; [|discriminate].
  cbn [bind] in H.
  pose proof (set_if_present_cases "moisture_100h" (moistures_100h params)
                data_indexes index d2) as C3.
  destruct (set_if_present "moisture_100h" _ _ _ d2) as [d3|]; [|discriminate].
  cbn [bind] in H.
  pose proof (set_if_present_cases "direction" (wind_directions params)
                data_indexes index d3) as C4.
  destruct (set_if_present "direction" _ _ _ d3) as [d4|]; [|discriminate].
  cbn [bind] in H.
  pose proof (set_if_present_cases "velocity" (wind_velocities params)
                data_indexes index d4) as C5.
  rewrite H in C5.
  assert (Hstep : forall key vector (a b : dict),
            (if given vector
             then exists di' v,
                 nth_error data_indexes index = Some di' /\
                 vector_item vector di' = Some v /\ b = dict_set key v a
             else b = a) ->
            (forall key', key' <> key -> dict_get key' b = dict_get key' a) /\
            (if given vector
             then dict_get key b = vector_item vector di /\
                  vector_item vector di <> None
             else dict_get key b = dict_get key a)).
  { intros key vector a b Hab. destruct (given vector).
    - destruct Hab as (di' & v & Hdi' & Hv & ->).
      rewrite Hdi in Hdi'. inversion Hdi'; subst di'.
      split; [intros key' Hk; apply dict_get_set_other; congruence|].
      rewrite dict_get_set_same, Hv. split; [reflexivity|discriminate].
    - subst b. auto. }
  destruct (Hstep _ _ _ _ C1) as [F1 V1].
  destruct (Hstep _ _ _ _ C2) as [F2 V2].
  destruct (Hstep _ _ _ _ C3) as [F3 V3].
  destruct (Hstep _ _ _ _ C4) as [F4 V4].
  destruct (Hstep _ _ _ _ C5) as [F5 V5].
  clear Hstep C1 C2 C3 C4 C5.
  assert (Hlive0 : forall key', key' <> "moisture_live"%string ->
                     dict_get key' d0 = dict_get key' d)
    by (intros key' Hk; apply dict_get_set_other; congruence).
  exists di. split; [reflexivity|]. split.
  { rewrite F5, F4, F3, F2, F1 by discriminate.
    subst d0. now rewrite dict_get_set_same. }
  split; [rewrite Hlive; discriminate|]. split.
  - intros key vector Hin. cbn [optional_vectors In] in Hin.
    destruct Hin as [E|[E|[E|[E|[E|[]]]]]]; inversion E; subst key vector;
      clear E.
    + rewrite F5, F4, F3, F2 by discriminate.
      destruct (given (moistures_1h params)); [assumption|].
      rewrite V1. now apply Hlive0.
    + rewrite F5, F4, F3 by discriminate.
      destruct (given (moistures_10h params)); [assumption|].
      rewrite V2, F1 by discriminate. now apply Hlive0.
    + rewrite F5, F4 by discriminate.
      destruct (given (moistures_100h params)); [assumption|].
      rewrite V3, F2, F1 by discriminate. now apply Hlive0.
    + rewrite F5 by discriminate.
      destruct (given (wind_directions params)); [assumption|].
      rewrite V4, F3, F2, F1 by discriminate. now apply Hlive0.
    + destruct (given (wind_velocities params)); [assumption|].
      rewrite V5, F4, F3, F2, F1 by discriminate. now apply Hlive0.
  - intros key Hlive' Hnot. cbn [optional_vectors map fst In] in Hnot.
    rewrite F5, F4, F3, F2, F1 by (intros ->; apply Hnot; tauto).
    now apply Hlive0.
Qed.

(** What [select_parameters] leaves in the dict for [r.ros]: the live
    moisture and every given vector are read at the one index
    [data_indexes[index]]; the key of a vector that is not given, and every
    other key, keeps what it had. *)
Theorem select_parameters_reads_one_index :
  forall (params : FireSimulationParams) (data_indexes : list nat)
         (index : nat) (rros_params selected : dict),
    select_parameters params data_indexes index rros_params = Ok selected ->
    exists di,
      nth_error data_indexes index = Some di /\
      dict_get "moisture_live" selected = nth_error (moistures_live params) di /\
      nth_error (moistures_live params) di <> None /\
      (forall key vector,
         In (key, vector) (optional_vectors params) ->
         if given vector
         then dict_get key selected = vector_item vector di /\
              vector_item vector di <> None
         else dict_get key selected = dict_get key rros_params) /\
      (forall key,
         key <> "moisture_live"%string ->
         ~ In key (map fst (optional_vectors params)) ->
         dict_get key selected = dict_get key rros_params).
Proof.
  intros params data_indexes index rros_params selected H.
  destruct (select_parameters_lookup _ _ _ _ _ H)
    as (di & Hdi & Hlive & Hcover & Hvectors & Hframe).
  exists di. repeat split; assumption.
Qed.

Lemma select_parameters_reads_one_index_witness :
  exists di,
    nth_error [0; 1]%nat 1 = Some di /\
    dict_get "moisture_live"
      (dict_set "moisture_live" "live_b" [("model", "fuel")]%string)
    = nth_error (moistures_live example_params) di /\
    nth_error (moistures_live example_params) di <> None /\
    (forall key vector,
       In (key, vector) (optional_vectors example_params) ->
       if given vector
       then dict_get key
              (dict_set "moisture_live" "live_b" [("model", "fuel")]%string)
            = vector_item vector di /\
            vector_item vector di <> None
       else dict_get key
              (dict_set "moisture_live" "live_b" [("model", "fuel")]%string)
            = dict_get key [("model", "fuel")]%string) /\
    (forall key,
       key <> "moisture_live"%string ->
       ~ In key (map fst (optional_vectors example_params)) ->
       dict_get key
         (dict_set "moisture_live" "live_b" [("model", "fuel")]%string)
       = dict_get key [("model", "fuel")]%string).
Proof.
  apply (select_parameters_reads_one_index example_params [0; 1]%nat 1
           [("model", "fuel")]%string).
  reflexivity.
Defined.

Lemma select_parameters_selected (params : FireSimulationParams)
  (data_indexes : list nat) (index : nat) (d p : dict) :
  select_parameters params data_indexes index d = Ok p ->
  exists di,
    nth_error data_indexes index = Some di /\ selected_at params di p /\
    vectors_cover params di.
Proof.
  intros H.
  destruct (select_parameters_lookup _ _ _ _ _ H)
    as (di & Hdi & Hlive & Hcover & Hvectors & _).
  exists di. split; [assumption|]. split; split; try assumption.
  - intros key vector Hin Hg. specialize (Hvectors _ _ Hin).
    rewrite Hg in Hvectors. tauto.
  - intros key vector Hin Hg. specialize (Hvectors _ _ Hin).
    rewrite Hg in Hvectors. tauto.
Qed.

Lemma set_if_present_returns (key : string) (vector : option (list string))
  (data_indexes : list nat) (index di : nat) (d : dict) :
  nth_error data_indexes index = Some di ->
  (given vector = true -> vector_item vector di <> None) ->
  exists d', set_if_present key vector data_indexes index d = Ok d'.
Proof.
  intros Hdi Hcover. unfold set_if_present.
  destruct vector as [[|x xs]|]; eauto.
  unfold item. rewrite Hdi. cbn [bind].
  specialize (Hcover eq_refl). cbn [vector_item] in Hcover.
  destruct (nth_error (x :: xs) di); [cbn [bind]; eauto|contradiction].
Qed.

Lemma select_parameters_returns (params : FireSimulationParams)
  (data_indexes : list nat) (index di : nat) (d : dict) :
  nth_error data_indexes index = Some di ->
  vectors_cover params di ->
  exists p, select_parameters params data_indexes index d = Ok p.
Proof.
  intros Hdi [Hlive Hcover]. unfold select_parameters.
  unfold item at 1 2. rewrite Hdi. cbn [bind].
  destruct (nth_error (moistures_live params) di) as [live|];
    [|contradiction].
  cbn [bind].
  assert (Hin : forall key vector,
            In (key, vector) (optional_vectors params) ->
            forall d0, exists d',
              set_if_present key vector data_indexes index d0 = Ok d').
  { intros key vector H d0.
    apply (set_if_present_returns key vector data_indexes index di);
      [assumption|]. now apply (Hcover key). }
  cbn [optional_vectors] in Hin.
  destruct (Hin "moisture_1h"%string (moistures_1h params)
              ltac:(simpl; tauto)
              (dict_set "moisture_live" live d)) as [d1 ->]. cbn [bind].
  destruct (Hin "moisture_10h"%string (moistures_10h params)
              ltac:(simpl; tauto) d1) as [d2 ->]. cbn [bind].
  destruct (Hin "moisture_100h"%string (moistures_100h params)
              ltac:(simpl; tauto) d2) as [d3 ->]. cbn [bind].
  destruct (Hin "direction"%string (wind_directions params)
              ltac:(simpl; tauto) d3) as [d4 ->]. cbn [bind].
  apply (Hin "velocity"%string (wind_velocities params)
           ltac:(simpl; tauto) d4).
Qed.

Lemma select_parameters_fixed (params : FireSimulationParams)
  (data_indexes : list nat) (index : nat) (d p : dict) :
  select_parameters params data_indexes index d = Ok p ->
  fixed_parameters params d -> fixed_parameters params p.
Proof.
  intros H (Hmodel & Hslope & Haspect & Helevation & Houtput & Habsent).
  destruct (select_parameters_lookup _ _ _ _ _ H)
    as (di & _ & _ & _ & Hvectors & Hframe).
  assert (Hkeep : forall key,
            In key ["model"; "slope"; "aspect"; "elevation"; "output"]%string ->
            dict_get key p = dict_get key d).
  { intros key Hin. apply Hframe.
    - intros ->. cbn in Hin. intuition discriminate.
    - intros Hopt. cbn in Hin, Hopt.
      repeat match goal with
             | H : _ \/ _ |- _ => destruct H
             end; subst; try discriminate; contradiction. }
  unfold fixed_parameters.
  rewrite !Hkeep by (cbn; tauto).
  repeat (split; [assumption|]).
  intros key vector Hin Hg. specialize (Hvectors _ _ Hin).
  rewrite Hg in Hvectors. rewrite Hvectors. now apply (Habsent key vector).
Qed.

(** ** Runs of [simulate_fire] that return *)

Section OrchestratorReturns.

Variable run : list event -> command -> Z.
Variable params : FireSimulationParams.
Variable data_indexes : list nat.
Variable outputs : list string.

Lemma simulate_interval_selects (idx : nat) (iv : interval) (d : dict)
  (seed : string) (log log' : list event) (p : dict) (o : string) :
  simulate_interval run params data_indexes outputs idx iv d seed log
  = (Ok (p, o), log') ->
  select_parameters params data_indexes idx d = Ok p.
Proof.
  unfold simulate_interval, bind_action, lift, write_command, run_command,
    read_command, fatal, pure.
  destruct (select_parameters params data_indexes idx d) as [p0|e];
    [|discriminate].
  destruct (item outputs idx) as [o0|e];
    repeat match goal with
           | |- context [negb ?b] => destruct b; cbn [negb]
           end;
    intros H; inversion H; reflexivity.
Qed.

Lemma simulate_interval_returned (idx : nat) (iv : interval) (d : dict)
  (seed : string) (log log' : list event) (p : dict) (o : string) :
  simulate_interval run params data_indexes outputs idx iv d seed log
  = (Ok (p, o), log') ->
  select_parameters params data_indexes idx d = Ok p /\
  nth_error outputs idx = Some o /\
  exists info, log' = log ++ segment_events p seed o iv info.
Proof.
  intros H. split; [exact (simulate_interval_selects _ _ _ _ _ _ _ _ H)|].
  destruct (simulate_interval_cases run params data_indexes outputs
              idx iv d seed log)
    as [(p' & o' & info & Heq & Ho)|(e & part & Heq & _)];
    rewrite Heq in H; inversion H; subst.
  split; [exact Ho|]. now exists info.
Qed.

(** A loop that returns has logged one whole segment per interval. *)
Lemma simulate_fire_loop_returned :
  forall rest idx d seed log state log',
    fixed_parameters params d ->
    simulate_fire_loop run params data_indexes outputs rest idx d seed log
    = (Ok state, log') ->
    exists segments,
      log' = log ++ concat segments /\
      length segments = length rest /\
      forall j segment,
        nth_error segments j = Some segment ->
        exists p iv o di info,
          nth_error rest j = Some iv /\
          nth_error outputs (idx + j) = Some o /\
          nth_error data_indexes (idx + j) = Some di /\
          selected_at params di p /\
          fixed_parameters params p /\
          vectors_cover params di /\
          segment = segment_events p (seed_at outputs seed idx j) o iv info.
Proof.
  induction rest as [|iv rest IH]; intros idx d seed log state log' Hd H.
  - cbn in H. inversion H; subst. exists []. rewrite app_nil_r.
    split; [reflexivity|]. split; [reflexivity|].
    intros [|j] segment Hj; discriminate.
  - cbn [simulate_fire_loop] in H. unfold bind_action in H.
    destruct (simulate_interval run params data_indexes outputs idx iv d
                seed log) as [[[p o]|e] log1] eqn:Hstep; [|discriminate].
    destruct (simulate_interval_returned _ _ _ _ _ _ _ _ Hstep)
      as (Hsel & Ho & info & ->).
    destruct (select_parameters_selected _ _ _ _ _ Hsel)
      as (di & Hdi & Hat & Hcover).
    pose proof (select_parameters_fixed _ _ _ _ _ Hsel Hd) as Hp.
    cbn [fst snd] in H.
    destruct (IH _ _ _ _ _ _ Hp H) as (segments & -> & Hlen & Hsegs).
    exists (segment_events p seed o iv info :: segments).
    split; [cbn [concat]; now rewrite app_assoc|].
    split; [cbn [length]; now f_equal|].
    intros [|j] segment Hj; cbn [nth_error] in Hj.
    + inversion Hj; subst segment. exists p, iv, o, di, info.
      rewrite Nat.add_0_r.
      split; [reflexivity|]. split; [exact Ho|]. split; [exact Hdi|].
      split; [exact Hat|]. split; [exact Hp|].
      split; [exact Hcover|reflexivity].
    + destruct (Hsegs _ _ Hj)
        as (pj & ivj & oj & dj & infoj & H1 & H2 & H3 & H4 & H4' & H5 & H6).
      exists pj, ivj, oj, dj, infoj.
      rewrite Nat.add_succ_r. cbn [nth_error].
      change (S (idx + j)) with (S idx + j)%nat.
      split; [exact H1|]. split; [exact H2|]. split; [exact H3|].
      split; [exact H4|]. split; [exact H4'|]. split; [exact H5|].
      now rewrite <- (seed_at_shift outputs seed o idx j Ho).
Qed.

(** When every checked module returns [0] and the plan covers the
    intervals, the loop returns. *)
Lemma simulate_interval_returns (idx di : nat) (iv : interval) (d : dict)
  (seed o : string) (log : list event) :
  (forall l c, is_r_info c = false -> run l c = 0) ->
  nth_error data_indexes idx = Some di ->
  vectors_cover params di ->
  nth_error outputs idx = Some o ->
  exists p log',
    simulate_interval run params data_indexes outputs idx iv d seed log
    = (Ok (p, o), log').
Proof.
  intros Hrun Hdi Hcover Ho.
  destruct (select_parameters_returns params data_indexes idx di d Hdi Hcover)
    as [p Hsel].
  exists p.
  unfold simulate_interval, bind_action, lift, write_command, run_command,
    read_command, fatal, pure.
  rewrite Hsel. unfold item. rewrite Ho.
  repeat (rewrite Hrun by reflexivity; cbn [negb Z.eqb]).
  eexists. reflexivity.
Qed.

Lemma simulate_fire_loop_returns :
  forall rest idx d seed log,
    (forall l c, is_r_info c = false -> run l c = 0) ->
    (forall j, (j < length rest)%nat ->
       nth_error outputs (idx + j) <> None /\
       exists di, nth_error data_indexes (idx + j) = Some di /\
                  vectors_cover params di) ->
    exists state log',
      simulate_fire_loop run params data_indexes outputs rest idx d seed log
      = (Ok state, log').
Proof.
  induction rest as [|iv rest IH]; intros idx d seed log Hrun Hplan.
  - exists (d, seed), log. reflexivity.
  - cbn [simulate_fire_loop]. unfold bind_action.
    destruct (Hplan 0%nat ltac:(cbn; lia)) as (Ho & di & Hdi & Hcover).
    rewrite Nat.add_0_r in Ho, Hdi.
    destruct (nth_error outputs idx) as [o|] eqn:Eo; [|contradiction].
    destruct (simulate_interval_returns idx di iv d seed o log
                Hrun Hdi Hcover Eo) as (p & log1 & ->).
    cbn [fst snd]. apply IH; [exact Hrun|].
    intros j Hj. rewrite Nat.add_succ_l, <- Nat.add_succ_r.
    apply Hplan. cbn [length]. lia.
Qed.

End OrchestratorReturns.

(** ** The [r.spread] call of a reached segment *)


Section ReachedSegment.

Variable run : list event -> command -> Z.
Variable params : FireSimulationParams.
Variable data_indexes : list nat.
Variable outputs : list string.





End ReachedSegment.





Lemma initial_parameters_fixed (params : FireSimulationParams) :
  fixed_parameters params
    [("model", model params); ("slope", slope params);
     ("aspect", aspect params); ("elevation", elevation params);
     ("output", ros_basename)]%string.
Proof.
  repeat (split; [reflexivity|]).
  intros key vector Hin _. cbn in Hin.
  repeat match goal with
         | H : _ \/ _ |- _ => destruct H
         end;
    try contradiction;
    match goal with
    | H : (_, _) = (_, _) |- _ => inversion H; reflexivity
    end.
Qed.

(** A run of [simulate_fire] that returns has started exactly six modules
    per interval, in the order [r.ros], [r.spread], [r.info], [g.remove],
    [r.null], [r.colors], and the five checked ones returned [0]. The
    [r.ros] call of segment [j] is given the model, slope, aspect and
    elevation of the parameter bag, the fixed output base name, the live
    moisture at index [data_indexes[j]] and, for each of the five optional
    vectors, its entry at that same index when the vector is given and no
    such option when it is not; that index is a position of the live
    moisture vector and of every given vector, so each of these entries
    exists. *)
Theorem simulate_fire_return_is_whole_segments :
  forall (run : list event -> command -> Z) (params : FireSimulationParams)
         (simulation_intervals : list interval) (data_indexes : list nat)
         (outputs : list string) (log : list event),
    simulate_fire run params simulation_intervals data_indexes outputs []
    = (Ok tt, log) ->
    exists segments,
      log = concat segments /\
      length segments = length simulation_intervals /\
      forall j segment,
        nth_error segments j = Some segment ->
        exists p iv o di info,
          nth_error simulation_intervals j = Some iv /\
          nth_error outputs j = Some o /\
          nth_error data_indexes j = Some di /\
          vectors_cover params di /\
          selected_at params di p /\
          fixed_parameters params p /\
          segment = segment_events p (seed_of_segment params outputs j) o iv
                      info.
Proof.
  intros run params intervals data_indexes outputs log H.
  unfold simulate_fire, bind_action in H.
  match type of H with
  | context [simulate_fire_loop ?r ?p ?di ?o ?ivs ?i ?d ?s ?l] =>
      destruct (simulate_fire_loop r p di o ivs i d s l)
        as [[state|e] log1] eqn:Hloop; [|discriminate]
  end.
  unfold pure in H. inversion H; subst log1.
  destruct (simulate_fire_loop_returned run params data_indexes outputs
              _ _ _ _ _ _ _ (initial_parameters_fixed params) Hloop)
    as (segments & Hlog & Hlen & Hsegs).
  exists segments. split; [exact Hlog|]. split; [exact Hlen|].
  intros j segment Hj.
  destruct (Hsegs _ _ Hj)
    as (p & iv & o & di & info & H1 & H2 & H3 & H4 & H5 & Hcover & H6).
  exists p, iv, o, di, info.
  split; [exact H1|]. split; [exact H2|]. split; [exact H3|].
  split; [exact Hcover|]. split; [exact H4|]. split; [exact H5|].
  rewrite H6. destruct j; reflexivity.
Qed.

Lemma simulate_fire_return_is_whole_segments_witness :
  exists segments,
    snd (simulate_fire always_succeeds example_params [(0, 2); (2, 5)]
           [0; 1]%nat ["fire_2"; "fire_5"]%string [])
    = concat segments /\
    length segments = length [(0, 2); (2, 5)] /\
    forall j segment,
      nth_error segments j = Some segment ->
      exists p iv o di info,
        nth_error [(0, 2); (2, 5)] j = Some iv /\
        nth_error ["fire_2"; "fire_5"]%string j = Some o /\
        nth_error [0; 1]%nat j = Some di /\
        vectors_cover example_params di /\
        selected_at example_params di p /\
        fixed_parameters example_params p /\
        segment = segment_events p
                    (seed_of_segment example_params
                       ["fire_2"; "fire_5"]%string j) o iv info.
Proof.
  apply (simulate_fire_return_is_whole_segments always_succeeds
           example_params [(0, 2); (2, 5)] [0; 1]%nat
           ["fire_2"; "fire_5"]%string).
  reflexivity.
Defined.

(** When every checked module returns [0], [simulate_fire] returns exactly
    when the plan covers the intervals: each interval has an output name and
    a data index, and that index is a position of the live-moisture vector
    and of every given optional vector. *)
Theorem simulate_fire_returns_iff_plan_covers :
  forall (run : list event -> command -> Z) (params : FireSimulationParams)
         (simulation_intervals : list interval) (data_indexes : list nat)
         (outputs : list string),
    (forall log c, is_r_info c = false -> run log c = 0) ->
    (fst (simulate_fire run params simulation_intervals data_indexes
            outputs []) = Ok tt
     <-> plan_covers params simulation_intervals data_indexes outputs).
Proof.
  intros run params intervals data_indexes outputs Hrun. split.
  - intros H.
    destruct (simulate_fire run params intervals data_indexes outputs [])
      as [r log] eqn:Hsim.
    cbn [fst] in H. subst r.
    unfold simulate_fire, bind_action in Hsim.
    match type of Hsim with
    | context [simulate_fire_loop ?r ?p ?di ?o ?ivs ?i ?d ?s ?l] =>
        destruct (simulate_fire_loop r p di o ivs i d s l)
          as [[state|e] log1] eqn:Hloop; [|discriminate]
    end.
    destruct (simulate_fire_loop_returned run params data_indexes outputs
                _ _ _ _ _ _ _ (initial_parameters_fixed params) Hloop)
      as (segments & _ & Hlen & Hsegs).
    intros j Hj.
    destruct (nth_error segments j) as [segment|] eqn:Hseg.
    2:{ apply nth_error_None in Hseg. lia. }
    destruct (Hsegs _ _ Hseg)
      as (p & iv & o & di & info & _ & H2 & H3 & _ & _ & H5 & _).
    cbn [Nat.add] in H2, H3.
    split; [congruence|]. exists di. split; assumption.
  - intros Hplan. unfold simulate_fire, bind_action.
    match goal with
    | |- context [simulate_fire_loop ?r ?p ?di ?o ?ivs ?i ?d ?s ?l] =>
        destruct (simulate_fire_loop_returns r p di o ivs i d s l Hrun)
          as (state & log1 & ->); [exact Hplan|reflexivity]
    end.
Qed.

Lemma simulate_fire_returns_iff_plan_covers_witness :
  fst (simulate_fire always_succeeds example_params [(0, 2); (2, 5)]
         [0; 1]%nat ["fire_2"; "fire_5"]%string []) = Ok tt
  <-> plan_covers example_params [(0, 2); (2, 5)] [0; 1]%nat
        ["fire_2"; "fire_5"]%string.
Proof.
  apply (simulate_fire_returns_iff_plan_covers always_succeeds).
  intros log c _. reflexivity.
Defined.

(** ** [main], end to end *)

Lemma spread_events_whole_segments (segments : list (list event)) :
  (forall j segment,
     nth_error segments j = Some segment ->
     exists p seed o iv info, segment = segment_events p seed o iv info) ->
  length (spread_events (concat segments)) = length segments.
Proof.
  induction segments as [|segment segments IH]; intros Hall;
    [reflexivity|].
  destruct (Hall 0%nat segment eq_refl) as (p & seed & o & iv & info & ->).
  cbn [concat]. rewrite spread_events_segment. cbn [length]. f_equal.
  apply IH. intros j s Hj. apply (Hall (S j) s Hj).
Qed.

Lemma simulate_fire_covered (run : list event -> command -> Z)
  (params : FireSimulationParams) (simulation_intervals : list interval)
  (data_indexes : list nat) (outputs : list string) :
  (forall log c, is_r_info c = false -> run log c = 0) ->
  plan_covers params simulation_intervals data_indexes outputs ->
  exists log,
    simulate_fire run params simulation_intervals data_indexes outputs []
    = (Ok tt, log) /\
    length (spread_events log) = length simulation_intervals.
Proof.
  intros Hrun Hplan. unfold simulate_fire, bind_action.
  match goal with
  | |- context [simulate_fire_loop ?r ?p ?di ?o ?ivs ?i ?d ?s ?l] =>
      destruct (simulate_fire_loop_returns r p di o ivs i d s l Hrun Hplan)
        as (state & log1 & Hloop); rewrite Hloop
  end.
  exists log1. split; [reflexivity|].
  destruct (simulate_fire_loop_returned run params data_indexes outputs
              _ _ _ _ _ _ _ (initial_parameters_fixed params) Hloop)
    as (segments & -> & Hlen & Hsegs).
  cbn [app]. rewrite <- Hlen. apply spread_events_whole_segments.
  intros j segment Hj.
  destruct (Hsegs _ _ Hj) as (p & iv & o & di & info & _ & _ & _ & _ & _ & _ & ->).
  eauto 6.
Qed.

Lemma optional_vector_is_checked (params : FireSimulationParams)
  (key : string) (v : list string) :
  In (key, Some v) (optional_vectors params) ->
  In (Some v) (checked_vectors params).
Proof.
  cbn. intros H.
  repeat match goal with
         | H : _ \/ _ |- _ => destruct H
         end;
    try contradiction;
    match goal with
    | H : (_, _) = (_, _) |- _ => inversion H
    end; tauto.
Qed.

Lemma checked_vectors_cover (params : FireSimulationParams) (n di : nat) :
  (forall v, In (Some v) (checked_vectors params) -> length v = n) ->
  (di < n)%nat ->
  vectors_cover params di.
Proof.
  intros Hlen Hdi. split.
  - apply nth_error_Some. rewrite (Hlen (moistures_live params)); [exact Hdi|].
    now left.
  - intros key vector Hin Hgiven.
    destruct vector as [v|]; [|discriminate]. cbn [vector_item].
    apply nth_error_Some.
    rewrite (Hlen v); [exact Hdi|].
    now apply (optional_vector_is_checked params key).
Qed.

Lemma two_members_length (l : list Z) (a b : Z) :
  In a l -> In b l -> a <> b -> (2 <= length l)%nat.
Proof.
  destruct l as [|x [|y l]]; cbn; intros Ha Hb Hab; [contradiction| |lia].
  destruct Ha as [<-|[]], Hb as [<-|[]]. now elim Hab.
Qed.

(** What [main] has planned when the merge returned at least two
    checkpoints that start at the first change time, [0]. *)
Lemma main_plan_covers (int_log10 : Z -> Z) (params : FireSimulationParams)
  (basename : string) (change_times simulation_times : list Z) :
  StronglySorted Z.lt simulation_times ->
  (forall t, In t simulation_times -> 0 <= t) ->
  In 0 simulation_times ->
  (2 <= length simulation_times)%nat ->
  nth_error change_times 0 = Some 0 ->
  (forall v, In (Some v) (checked_vectors params) ->
             length v = length change_times) ->
  exists data_indexes outputs,
    data_indexes_for_intervals
      (combine simulation_times (tl simulation_times)) change_times
    = Ok data_indexes /\
    output_names_for_intervals int_log10 basename
      (combine simulation_times (tl simulation_times))
    = Ok outputs /\
    plan_covers params (combine simulation_times (tl simulation_times))
      data_indexes outputs.
Proof.
  intros Hsorted Hnonneg Hzero Htwo Hct0 Hlen.
  set (intervals := combine simulation_times (tl simulation_times)).
  assert (Hivlen : length intervals = (length simulation_times - 1)%nat)
    by apply length_combine_tl.
  assert (Hne : intervals <> []).
  { intros E. rewrite E in Hivlen. cbn in Hivlen. lia. }
  (* the first start is [0] *)
  assert (Hfirst : exists first rest,
             intervals = first :: rest /\ fst first = 0).
  { subst intervals.
    destruct simulation_times as [|a [|b l]]; cbn in Htwo; try lia.
    exists (a, b). eexists. split; [reflexivity|]. cbn [fst].
    assert (0 <= a) by (apply Hnonneg; now left).
    destruct Hzero as [->|Hin]; [reflexivity|].
    inversion Hsorted as [|? ? _ Hall]; subst.
    rewrite Forall_forall in Hall. specialize (Hall _ Hin). lia. }
  destruct Hfirst as (first & rest & Hiv & Hstart).
  destruct change_times as [|t0 ts]; [discriminate|].
  cbn [nth_error] in Hct0. inversion Hct0; subst t0.
  destruct (data_indexes_first_start_matches first rest 0 ts
              (eq_sym Hstart)) as [data_indexes Hidx].
  rewrite <- Hiv in Hidx.
  assert (Hpos : 0 < snd (last intervals (0, 0))).
  { assert (Hall : Forall (fun iv : interval => 0 < snd iv) intervals).
    { apply checkpoint_intervals_end_positive. split; [exact Hsorted|].
      apply Forall_forall. exact Hnonneg. }
    rewrite Forall_forall in Hall. apply Hall. now apply last_in. }
  destruct (output_names_length int_log10 basename intervals Hne Hpos)
    as (outputs & Hnames & Hnlen).
  exists data_indexes, outputs.
  split; [exact Hidx|]. split; [exact Hnames|].
  pose proof Hidx as Hinv. unfold data_indexes_for_intervals in Hinv.
  apply data_indexes_loop_invariants in Hinv; [|discriminate].
  destruct Hinv as (new & -> & Hnewlen & _ & Hrange). cbn [app] in *.
  intros j Hj. split.
  - apply nth_error_Some. lia.
  - destruct (nth_error new j) as [di|] eqn:Hdi.
    2:{ apply nth_error_None in Hdi. lia. }
    exists di. split; [reflexivity|].
    apply (checked_vectors_cover params (length (0 :: ts))); [exact Hlen|].
    rewrite Forall_forall in Hrange.
    apply (Hrange di). eapply nth_error_In; eauto.
Qed.

(** [main] on well-formed options: a positive step, change times that are
    not negative and begin with [0], at least one further checkpoint (the
    step fits into the horizon, or some change time is not [0]), every given
    vector as long as the change times, and every checked module returning
    [0]. Then [main] returns [0], whatever the logarithm gives, and has
    started one [r.spread] per interval of its merged checkpoint list. *)
Theorem main_returns_when_modules_succeed :
  forall (run : list event -> command -> Z) (int_log10 : Z -> Z)
         (options : parsed_options),
    0 < opt_time_step options ->
    nth_error (opt_times options) 0 = Some 0 ->
    Forall (fun t => 0 <= t) (opt_times options) ->
    (opt_time_step options <= opt_lag options \/
     exists t, In t (opt_times options) /\ t <> 0) ->
    (forall v,
       In (Some v) (checked_vectors (sim_params_of options)) ->
       length v = length (opt_times options)) ->
    (forall log c, is_r_info c = false -> run log c = 0) ->
    exists simulation_times log,
      simulation_times_of_main (opt_time_step options) (opt_lag options)
        (opt_times options) = Ok simulation_times /\
      main run int_log10 options [] = (Ok 0, log) /\
      (2 <= length simulation_times)%nat /\
      length (spread_events log) = (length simulation_times - 1)%nat.
Proof.
  intros run int_log10 options Hstep Hct0 Hnonneg Htwo Hlen Hrun.
  destruct (simulation_times_of_main (opt_time_step options)
              (opt_lag options) (opt_times options))
    as [l|e] eqn:Hmerge.
  2:{ unfold simulation_times_of_main, range in Hmerge.
      destruct (Z.eqb_spec (opt_time_step options) 0); [lia|discriminate]. }
  destruct (simulation_times_of_main_facts _ _ _ _ Hstep Hmerge)
    as (Hsorted & Hmem).
  assert (Hge : forall t, In t l -> 0 <= t).
  { intros t Ht. apply Hmem in Ht. destruct Ht as [(k & Hk & -> & _)|Ht].
    - nia.
    - rewrite Forall_forall in Hnonneg. now apply Hnonneg. }
  assert (Hzero : In 0 l).
  { apply Hmem. right. eapply nth_error_In; eauto. }
  assert (Hl : (2 <= length l)%nat).
  { destruct Htwo as [Hfits|(t & Ht & Hne)].
    - apply (two_members_length l 0 (opt_time_step options));
        [exact Hzero| |lia].
      apply Hmem. left. exists 1. lia.
    - apply (two_members_length l 0 t); [exact Hzero| |congruence].
      apply Hmem. now right. }
  destruct (main_plan_covers int_log10 (sim_params_of options)
              (opt_output options) (opt_times options) l
              Hsorted Hge Hzero Hl Hct0 Hlen)
    as (data_indexes & outputs & Hidx & Hnames & Hcovers).
  destruct (simulate_fire_covered run (sim_params_of options) _ _ _
              Hrun Hcovers) as (log & Hsim & Hcount).
  exists l, log. split; [reflexivity|].
  split; [|split; [exact Hl|]].
  - unfold main, bind_action, lift.
    rewrite (check_lengths_pass _ _ Hlen).
    unfold plan_and_simulate, bind_action, lift.
    rewrite Hmerge, times_to_intervals_combine, Hidx, Hnames, Hsim.
    reflexivity.
  - rewrite Hcount. apply length_combine_tl.
Qed.

Lemma main_returns_when_modules_succeed_witness :
  exists simulation_times log,
    simulation_times_of_main (opt_time_step example_options)
      (opt_lag example_options) (opt_times example_options)
    = Ok simulation_times /\
    main always_succeeds (fun _ => 0) example_options [] = (Ok 0, log) /\
    (2 <= length simulation_times)%nat /\
    length (spread_events log) = (length simulation_times - 1)%nat.
Proof.
  apply (main_returns_when_modules_succeed always_succeeds (fun _ => 0)
           example_options).
  - reflexivity.
  - reflexivity.
  - repeat constructor; discriminate.
  - left. discriminate.
  - intros v Hv. cbn in Hv.
    repeat match goal with
           | H : _ \/ _ |- _ => destruct H
           end;
      try contradiction; try discriminate;
      match goal with
      | H : Some _ = Some _ |- _ => inversion H; reflexivity
      end.
  - intros log c _. reflexivity.
Defined.

(** ** [main]: plans that cannot run *)

Ltac checked_vectors_by_cases H :=
  cbn in H;
  repeat match goal with
         | H : _ \/ _ |- _ => destruct H
         end;
  try contradiction; try discriminate;
  match goal with
  | H : Some _ = Some _ |- _ => inversion H; reflexivity
  end.

(** With a step of zero [main] passes the length check and then ends in the
    [ValueError] of [range], before any module is started. *)
Theorem main_zero_step_raises_value_error :
  forall (run : list event -> command -> Z) (int_log10 : Z -> Z)
         (options : parsed_options),
    (forall v,
       In (Some v) (checked_vectors (sim_params_of options)) ->
       length v = length (opt_times options)) ->
    opt_time_step options = 0 ->
    main run int_log10 options [] = (Raise ValueError, []).
Proof.
  intros run int_log10 options Hlen Hstep.
  unfold main, bind_action, lift. rewrite (check_lengths_pass _ _ Hlen).
  unfold plan_and_simulate, bind_action, lift, simulation_times_of_main,
    range.
  rewrite Hstep. reflexivity.
Qed.

Lemma main_zero_step_raises_value_error_witness :
  main always_succeeds (fun _ => 0) zero_step_options []
  = (Raise ValueError, []).
Proof.
  apply (main_zero_step_raises_value_error always_succeeds (fun _ => 0)
           zero_step_options).
  - intros v Hv. checked_vectors_by_cases Hv.
  - reflexivity.
Defined.

(** When the merge leaves a single checkpoint (a positive step that exceeds
    the horizon and no change time other than [0]) there is no interval:
    [main] ends in the [IndexError] of [intervals[-1]] in
    [output_names_for_intervals], before any module is started. *)
Theorem main_single_checkpoint_raises_index_error :
  forall (run : list event -> command -> Z) (int_log10 : Z -> Z)
         (options : parsed_options),
    (forall v,
       In (Some v) (checked_vectors (sim_params_of options)) ->
       length v = length (opt_times options)) ->
    0 < opt_time_step options ->
    opt_lag options < opt_time_step options ->
    (forall t, In t (opt_times options) -> t = 0) ->
    main run int_log10 options [] = (Raise IndexError, []).
Proof.
  intros run int_log10 options Hlen Hstep Hshort Hzero.
  unfold main, bind_action, lift. rewrite (check_lengths_pass _ _ Hlen).
  unfold plan_and_simulate, bind_action, lift.
  destruct (simulation_times_of_main (opt_time_step options)
              (opt_lag options) (opt_times options))
    as [l|e] eqn:Hmerge.
  2:{ unfold simulation_times_of_main, range in Hmerge.
      destruct (Z.eqb_spec (opt_time_step options) 0); [lia|discriminate]. }
  destruct (simulation_times_of_main_facts _ _ _ _ Hstep Hmerge)
    as (Hsorted & Hmem).
  assert (Hall : forall t, In t l -> t = 0).
  { intros t Ht. apply Hmem in Ht. destruct Ht as [(k & Hk & -> & Hle)|Ht].
    - destruct (Z.eq_dec k 0) as [->|Hk0]; [lia|exfalso].
      assert (1 * opt_time_step options <= k * opt_time_step options)
        by (apply Z.mul_le_mono_nonneg_r; lia).
      lia.
    - now apply Hzero. }
  rewrite times_to_intervals_combine.
  assert (Hnone : combine l (tl l) = []).
  { destruct l as [|a [|b l]]; [reflexivity|reflexivity|exfalso].
    inversion Hsorted as [|? ? _ Hlt]; subst.
    inversion Hlt as [|? ? Hab _]; subst.
    rewrite (Hall a), (Hall b) in Hab by (cbn; tauto). lia. }
  rewrite Hnone. reflexivity.
Qed.

Lemma main_single_checkpoint_raises_index_error_witness :
  main always_succeeds (fun _ => 0) short_horizon_options []
  = (Raise IndexError, []).
Proof.
  apply (main_single_checkpoint_raises_index_error always_succeeds
           (fun _ => 0) short_horizon_options).
  - intros v Hv. checked_vectors_by_cases Hv.
  - reflexivity.
  - reflexivity.
  - intros t [<-|[]]. reflexivity.
Defined.

(** ** Names never collide *)

Lemma append_prefix_injective (p a b : string) :
  (p ++ a)%string = (p ++ b)%string -> a = b.
Proof.
  induction p as [|c p IH]; cbn; intros H; [exact H|].
  inversion H. now apply IH.
Qed.

(** Whatever the logarithm gives, and so whatever width the names are padded
    to, intervals with positive, pairwise distinct end times get pairwise
    distinct names: no two segments write the same map. *)
Theorem output_names_distinct_for_any_width :
  forall (int_log10 : Z -> Z) (basename : string) (intervals : list interval),
    intervals <> [] ->
    Forall (fun iv => 0 < snd iv) intervals ->
    NoDup (map snd intervals) ->
    exists names,
      output_names_for_intervals int_log10 basename intervals = Ok names /\
      length names = length intervals /\
      NoDup names.
Proof.
  intros int_log10 basename intervals Hne Hpos Hdistinct.
  pose proof (output_names_for_intervals_cases int_log10 basename intervals)
    as Hcases.
  destruct intervals as [|iv rest] eqn:E; [contradiction|]. rewrite <- E in *.
  cbv zeta in Hcases.
  assert (Hmax : 0 < snd (last intervals (0, 0))).
  { rewrite Forall_forall in Hpos. apply Hpos. apply last_in.
    rewrite E. discriminate. }
  destruct (Z.leb_spec (snd (last intervals (0, 0))) 0); [lia|].
  eexists. split; [exact Hcases|]. split; [apply length_map|].
  set (width := int_log10 (snd (last intervals (0, 0))) + 1).
  rewrite <- (map_map snd
                (fun t => (basename ++ "_" ++ format_order t width)%string)).
  apply NoDup_map_NoDup_ForallPairs; [|exact Hdistinct].
  intros a b Ha Hb Heq.
  apply append_prefix_injective in Heq.
  apply (append_prefix_injective "_") in Heq.
  rewrite Forall_forall in Hpos.
  apply in_map_iff in Ha. destruct Ha as (iva & <- & Hiva).
  apply in_map_iff in Hb. destruct Hb as (ivb & <- & Hivb).
  pose proof (Hpos _ Hiva). pose proof (Hpos _ Hivb).
  destruct (format_order_digits (snd iva) width) as [_ Va]; [lia|].
  destruct (format_order_digits (snd ivb) width) as [_ Vb]; [lia|].
  rewrite <- Va, <- Vb. now rewrite Heq.
Qed.

Lemma output_names_distinct_for_any_width_witness :
  exists names,
    output_names_for_intervals (fun _ => 0) "fire" [(0, 5); (5, 50); (50, 500)]
    = Ok names /\
    length names = length [(0, 5); (5, 50); (50, 500)] /\
    NoDup names.
Proof.
  apply (output_names_distinct_for_any_width (fun _ => 0) "fire"
           [(0, 5); (5, 50); (50, 500)]).
  - discriminate.
  - repeat constructor.
  - repeat constructor; cbn; intuition discriminate.
Defined.

(** ** [split] *)

Lemma split_nonempty (sep : ascii) (s : string) : split sep s <> [].
Proof.
  destruct s as [|c s]; cbn [split]; [discriminate|].
  destruct (Ascii.eqb c sep); [discriminate|].
  destruct (split sep s); discriminate.
Qed.

(** [s.split(sep)] cuts at every separator and nowhere else: it returns one
    piece more than [s] has separators, no piece contains the separator, and
    joining the pieces with the separator gives [s] back. *)
Theorem split_cuts_at_every_separator :
  forall (sep : ascii) (s : string),
    length (split sep s) = S (count sep s) /\
    Forall (fun piece => count sep piece = 0%nat) (split sep s) /\
    join (String sep EmptyString) (split sep s) = s.
Proof.
  intros sep s. induction s as [|c s IH].
  - cbn. repeat split. repeat constructor.
  - destruct IH as (IHlen & IHfree & IHjoin). cbn [split count].
    pose proof (split_nonempty sep s) as Hne.
    destruct (Ascii.eqb_spec c sep) as [->|Hc].
    + split; [cbn [length]; now rewrite IHlen|].
      split; [constructor; [reflexivity|exact IHfree]|].
      destruct (split sep s) as [|word words]; [contradiction|].
      change (join (String sep EmptyString) (EmptyString :: word :: words))
        with (String sep (join (String sep EmptyString) (word :: words))).
      now rewrite IHjoin.
    + destruct (split sep s) as [|word words]; [contradiction|].
      split; [exact IHlen|].
      pose proof (Forall_inv IHfree) as Hword.
      pose proof (Forall_inv_tail IHfree) as Hwords.
      split.
      * constructor; [|exact Hwords]. cbn [count].
        destruct (Ascii.eqb_spec c sep); [contradiction|exact Hword].
      * rewrite <- IHjoin. destruct words; reflexivity.
Qed.

(** ** The two merges compared *)

Lemma determine_simulation_times_loop_within (time_step max_time : Z)
  (change_times : list Z) :
  0 < time_step ->
  forall fuel current_time simulation_times idx next_change_time times,
    (exists m, 0 <= m /\ current_time = m * time_step) ->
    current_time <= max_time ->
    In next_change_time change_times ->
    (forall k, 0 <= k -> k * time_step <= current_time ->
               In (k * time_step) simulation_times) ->
    (forall t, In t simulation_times ->
               (exists k, 0 <= k /\ t = k * time_step /\ t <= max_time) \/
               In t change_times) ->
    determine_simulation_times_loop fuel time_step max_time change_times
      current_time simulation_times idx next_change_time
    = Some (Ok times) ->
    (forall k, 0 <= k -> k * time_step <= max_time ->
               In (k * time_step) times) /\
    (forall t, In t times ->
               (exists k, 0 <= k /\ t = k * time_step /\ t <= max_time) \/
               In t change_times).
Proof.
  intros Hstep.
  induction fuel as [|fuel IH];
    intros c st idx nct times (m & Hm & Hc) Hcmax Hnct Hmult Hkind H;
    [discriminate|].
  cbn [determine_simulation_times_loop] in H.
  destruct (Z.ltb_spec c max_time) as [Hlt|Hge].
  - destruct (insert_change_time_appends time_step change_times c st idx nct
                Hnct) as (st' & idx' & nct' & Hins & Hnct' & Hst').
    rewrite Hins in H.
    assert (Hsub : forall t, In t st -> In t st').
    { destruct Hst' as [->|[-> _]]; [trivial|].
      intros t Ht. apply in_or_app. now left. }
    assert (Hkind' : forall t, In t st' ->
              (exists k, 0 <= k /\ t = k * time_step /\ t <= max_time) \/
              In t change_times).
    { destruct Hst' as [->|[-> _]]; [exact Hkind|].
      intros t Ht. apply in_app_or in Ht.
      destruct Ht as [Ht|[<-|[]]]; [now apply Hkind|now right]. }
    destruct (Z.gtb_spec (c + time_step) max_time) as [Hover|Hfits].
    + inversion H; subst times. split; [|exact Hkind'].
      intros k Hk Hle. apply Hsub. apply Hmult; [assumption|].
      assert (k <= m) by nia. nia.
    + apply IH in H; [exact H| | | | |].
      * exists (m + 1). split; [lia|nia].
      * lia.
      * exact Hnct'.
      * intros k Hk Hle. apply in_or_app.
        destruct (Z.eq_dec k (m + 1)) as [->|Hne].
        -- right. left. nia.
        -- left. apply Hsub. apply Hmult; [assumption|].
           assert (k <= m) by nia. nia.
      * intros t Ht. apply in_app_or in Ht.
        destruct Ht as [Ht|[<-|[]]]; [now apply Hkind'|].
        left. exists (m + 1). split; [lia|]. split; [nia|lia].
  - inversion H; subst times. split; [|exact Hkind].
    intros k Hk Hle. apply Hmult; [assumption|lia].
Qed.

(** The list [determine_simulation_times] returns and the merge [main]
    performs instead, on the same input with a positive step and a horizon
    that is not negative: every checkpoint of the former is one of the
    latter, and what the latter has in addition are change times only. *)
Theorem determine_simulation_times_within_main_merge :
  forall (fuel : nat) (time_step max_time : Z)
         (change_times times merged : list Z),
    0 < time_step ->
    0 <= max_time ->
    determine_simulation_times fuel time_step max_time change_times
    = Some (Ok times) ->
    simulation_times_of_main time_step max_time change_times = Ok merged ->
    incl times merged /\
    (forall t, In t merged -> ~ In t times -> In t change_times).
Proof.
  intros fuel step max_time ct times merged Hstep Hmax Hloop Hmerge.
  destruct (simulation_times_of_main_facts _ _ _ _ Hstep Hmerge)
    as (_ & Hmem).
  unfold determine_simulation_times in Hloop.
  destruct (item ct (0 + 1)) as [nct|e] eqn:Hnct; [|discriminate].
  apply item_Ok_nth_error in Hnct.
  apply (determine_simulation_times_loop_within step max_time ct Hstep)
    in Hloop.
  - destruct Hloop as (Hmult & Hkind). split.
    + intros t Ht. apply Hmem.
      destruct (Hkind _ Ht) as [(k & Hk & Ht' & Hle)|Hin]; [left|now right].
      exists k. auto.
    + intros t Ht Hnot. apply Hmem in Ht.
      destruct Ht as [(k & Hk & -> & Hle)|Hin]; [|exact Hin].
      exfalso. apply Hnot. now apply Hmult.
  - exists 0. lia.
  - exact Hmax.
  - eapply nth_error_In; eauto.
  - intros k Hk Hle. left. nia.
  - intros t [<-|[]]. left. exists 0. lia.
Qed.

Lemma determine_simulation_times_within_main_merge_witness :
  incl [0; 2; 3; 6; 9; 12] [0; 2; 3; 6; 7; 9; 12] /\
  (forall t, In t [0; 2; 3; 6; 7; 9; 12] -> ~ In t [0; 2; 3; 6; 9; 12] ->
             In t [0; 2; 6; 7]).
Proof.
  apply (determine_simulation_times_within_main_merge 20 3 14 [0; 2; 6; 7]).
  - lia.
  - lia.
  - reflexivity.
  - reflexivity.
Defined.

(** ** A step that is not positive *)

Lemma determine_simulation_times_loop_never_returns
  (time_step max_time : Z) (change_times : list Z) :
  time_step <= 0 ->
  forall fuel current_time simulation_times idx next_change_time,
    current_time < max_time ->
    determine_simulation_times_loop fuel time_step max_time change_times
      current_time simulation_times idx next_change_time
    = None.
Proof.
  intros Hstep.
  induction fuel as [|fuel IH]; intros c st idx nct Hc; [reflexivity|].
  cbn [determine_simulation_times_loop].
  destruct (Z.ltb_spec c max_time) as [_|Hge]; [|lia].
  unfold insert_change_time.
  destruct (Z.gtb_spec nct c) as [Hgt|Hle]; cbn [andb].
  - destruct (Z.ltb_spec nct (c + time_step)) as [Hlt|_]; [lia|].
    destruct (Z.gtb_spec (c + time_step) max_time) as [Hover|_]; [lia|].
    apply IH. lia.
  - destruct (Z.gtb_spec (c + time_step) max_time) as [Hover|_]; [lia|].
    apply IH. lia.
Qed.

(** With a step that is not positive, a positive horizon and at least two
    change times the [while] loop of [determine_simulation_times] never
    ends: no number of iterations gives a result. *)
Theorem determine_simulation_times_never_returns_without_positive_step :
  forall (fuel : nat) (time_step max_time : Z) (change_times : list Z),
    time_step <= 0 ->
    0 < max_time ->
    (2 <= length change_times)%nat ->
    determine_simulation_times fuel time_step max_time change_times = None.
Proof.
  intros fuel step max_time ct Hstep Hmax Hlen.
  unfold determine_simulation_times.
  destruct (nth_error ct (0 + 1)) as [t|] eqn:Ht.
  2:{ apply nth_error_None in Ht. lia. }
  rewrite (item_nth_error _ _ _ Ht).
  now apply determine_simulation_times_loop_never_returns.
Qed.

Lemma determine_simulation_times_never_returns_without_positive_step_witness :
  determine_simulation_times 1000 0 9 [0; 3; 5] = None.
Proof.
  apply (determine_simulation_times_never_returns_without_positive_step
           1000 0 9 [0; 3; 5]); simpl; lia.
Defined.
